(** * Log-line parsers, dispatcher and Avro batch writer / reader

    A shallow embedding of [avro_serializer.py] and [avro_deserializer.py].

    Text is modelled as [string]: a sequence of code points 0..255.  On that
    range the regular-expression class [\d] is exactly the ten digits [0-9]
    and [.] is every character but the line feed.  Python integers are [Z].
    Exceptions and printed lines are explicit: a computation returns the lines
    it printed together with either a value or the exception it raised. *)

From Stdlib Require Import ZArith List Bool Ascii String Lia.
Import ListNotations.

#[local] Set Warnings "-register-all".

Local Open Scope string_scope.
Local Open Scope Z_scope.

(** ** Outcomes: values, exceptions, printed output *)

Inductive exn : Type :=
| IndexError        (* list index out of range *)
| ValueError        (* invalid literal for int() *)
| AvroTypeException (* datum is not an example of the schema *)
| InvalidAvroBinaryEncoding (* the decoder ran out of, or rejected, its input *)
| KeyError          (* no such key *)
| AttributeError    (* the object has no such attribute *)
| TypeError.        (* expected a string, got None *)

Inductive outcome (A : Type) : Type :=
| Return (a : A)
| Raise (e : exn).
Arguments Return {A} a.
Arguments Raise {A} e.

(** ** Python built-ins used by the parsers *)

Module Py.

(** [s[i]] on a list: [IndexError] out of range. *)
Definition index {A} (l : list A) (i : nat) : outcome A :=
  match nth_error l i with
  | Some x => Return x
  | None => Raise IndexError
  end.

(** [l[-1]]. *)
Definition last {A} (l : list A) : outcome A :=
  match rev l with
  | x :: _ => Return x
  | [] => Raise IndexError
  end.

Definition is_digit (a : ascii) : bool :=
  let n := nat_of_ascii a in (48 <=? n)%nat && (n <=? 57)%nat.

Definition digit_val (a : ascii) : Z := Z.of_nat (nat_of_ascii a) - 48.

(** [str.split(sep)] for a non-empty separator: cut at every occurrence of
    [sep], scanning from the left; [skip] counts the characters of a
    separator just recognised that are still to be passed over. *)
Fixpoint split_from (sep : string) (skip : nat) (s : string) : list string :=
  match s with
  | EmptyString => [EmptyString]
  | String a s' =>
      match skip with
      | S k => split_from sep k s'
      | O =>
          if prefix sep s then EmptyString :: split_from sep (length sep - 1) s'
          else match split_from sep O s' with
               | h :: t => String a h :: t
               | [] => [String a EmptyString]
               end
      end
  end.

Definition split (sep s : string) : list string := split_from sep O s.

(** [str.replace(old, new)] for one-character [old] and [new]. *)
Fixpoint replace (old new : ascii) (s : string) : string :=
  match s with
  | EmptyString => EmptyString
  | String a s' => String (if Ascii.eqb a old then new else a) (replace old new s')
  end.

(** Characters [int()] strips from both ends: tab, LF, VT, FF, CR, space,
    NEL (133) and the no-break space (160). *)
Definition is_space (a : ascii) : bool :=
  let n := nat_of_ascii a in
  ((9 <=? n)%nat && (n <=? 13)%nat) || (n =? 32)%nat || (n =? 133)%nat || (n =? 160)%nat.

Fixpoint lstrip (s : string) : string :=
  match s with
  | String a s' => if is_space a then lstrip s' else s
  | EmptyString => EmptyString
  end.

Fixpoint rstrip (s : string) : string :=
  match s with
  | String a s' =>
      match rstrip s' with
      | EmptyString => if is_space a then EmptyString else String a EmptyString
      | r => String a r
      end
  | EmptyString => EmptyString
  end.

(** Decimal digits with single underscores allowed between two digits. *)
Fixpoint digits_value (after_digit : bool) (acc : Z) (s : string) : option Z :=
  match s with
  | EmptyString => if after_digit then Some acc else None
  | String a s' =>
      if is_digit a then digits_value true (10 * acc + digit_val a) s'
      else if Ascii.eqb a "_" then
             if after_digit then digits_value false acc s' else None
           else None
  end.

(** [sys.get_int_max_str_digits()]: the interpreter's default cap on the
    number of digits of a decimal literal [int()] converts.  The scripts
    never change it. *)
Definition int_max_str_digits : Z := 4300.

(** The digits of a literal; sign, underscores and white space do not
    count. *)
Fixpoint digit_count (s : string) : Z :=
  match s with
  | EmptyString => 0
  | String a s' => (if is_digit a then 1 else 0) + digit_count s'
  end.

(** [int(s)]: surrounding white space, an optional sign, decimal digits.
    A well-formed literal with more than [int_max_str_digits] digits is
    refused with [ValueError], like an ill-formed one; otherwise the result
    is the mathematical integer. *)
Definition int (s : string) : outcome Z :=
  let body := rstrip (lstrip s) in
  let r := match body with
           | String a d =>
               if Ascii.eqb a "-" then option_map Z.opp (digits_value false 0 d)
               else if Ascii.eqb a "+" then digits_value false 0 d
               else digits_value false 0 body
           | EmptyString => None
           end in
  match r with
  | Some z =>
      if digit_count body <=? int_max_str_digits then Return z
      else Raise ValueError
  | None => Raise ValueError
  end.

End Py.

(** ** Regular expressions: the backtracking matcher of [re.search]

    The two patterns of the serializer are sequences of literals, counted
    classes, starred or plussed classes (greedy or lazy) and group
    delimiters; groups do not nest. *)

Module Re.

Inductive cclass : Type :=
| CDigit  (* \d *)
| CDot.   (* .  *)

Definition in_class (c : cclass) (a : ascii) : bool :=
  match c with
  | CDigit => Py.is_digit a
  | CDot => negb (Ascii.eqb a "010")
  end.

Inductive tok : Type :=
| TLit (l : string)                   (* literal text *)
| TCount (c : cclass) (n : nat)       (* c{n} *)
| TStar (c : cclass) (greedy : bool)  (* c* or c*? *)
| TPlus (c : cclass) (greedy : bool)  (* c+ or c+? *)
| TOpen                               (* ( *)
| TClose.                             (* ) *)

(** The text of the group that is open, if one is. *)
Definition grp : Type := option string.

Definition eat (a : ascii) (g : grp) : grp :=
  match g with
  | Some t => Some (t ++ String a EmptyString)
  | None => None
  end.

Section Matcher.
Variable R : Type.
(** What remains of the pattern, applied to the rest of the input. *)
Variable k : string -> grp -> option R.

Fixpoint lit (l : string) (s : string) (g : grp) : option R :=
  match l with
  | EmptyString => k s g
  | String x l' =>
      match s with
      | String a s' => if Ascii.eqb a x then lit l' s' (eat a g) else None
      | EmptyString => None
      end
  end.

Fixpoint count (c : cclass) (n : nat) (s : string) (g : grp) : option R :=
  match n with
  | O => k s g
  | S n' =>
      match s with
      | String a s' => if in_class c a then count c n' s' (eat a g) else None
      | EmptyString => None
      end
  end.

(** Greedy: one more character first, the continuation as the fallback. *)
Fixpoint star_greedy (c : cclass) (s : string) (g : grp) : option R :=
  match s with
  | String a s' =>
      if in_class c a then
        match star_greedy c s' (eat a g) with
        | Some r => Some r
        | None => k s g
        end
      else k s g
  | EmptyString => k s g
  end.

(** Lazy: the continuation first, one more character as the fallback. *)
Fixpoint star_lazy (c : cclass) (s : string) (g : grp) : option R :=
  match k s g with
  | Some r => Some r
  | None =>
      match s with
      | String a s' => if in_class c a then star_lazy c s' (eat a g) else None
      | EmptyString => None
      end
  end.

Definition star (c : cclass) (greedy : bool) : string -> grp -> option R :=
  if greedy then star_greedy c else star_lazy c.
End Matcher.

Arguments lit {R} k l s g.
Arguments count {R} k c n s g.
Arguments star_greedy {R} k c s g.
Arguments star_lazy {R} k c s g.
Arguments star {R} k c greedy s g.

(** Match the tokens [p] at the head of [s]; [caps] are the groups closed so
    far, latest first.  The result is [m.groups()]. *)
Fixpoint rmatch (p : list tok) (caps : list string) (s : string) (g : grp)
  : option (list string) :=
  match p with
  | [] => Some (rev caps)
  | TLit l :: p' => lit (rmatch p' caps) l s g
  | TCount c n :: p' => count (rmatch p' caps) c n s g
  | TStar c gr :: p' => star (rmatch p' caps) c gr s g
  | TPlus c gr :: p' => count (star (rmatch p' caps) c gr) c 1 s g
  | TOpen :: p' => rmatch p' caps s (Some EmptyString)
  | TClose :: p' =>
      rmatch p' (match g with Some t => t :: caps | None => caps end) s None
  end.

(** [re.search]: the first start position, from the left, where the pattern
    matches. *)
Fixpoint search (p : list tok) (s : string) : option (list string) :=
  match rmatch p [] s None with
  | Some gs => Some gs
  | None =>
      match s with
      | String _ s' => search p s'
      | EmptyString => None
      end
  end.

End Re.

(** ** The Avro binary codec ([avro.io])

    The part of the library the two scripts call: [DatumWriter.write], which
    validates the datum against the schema and then encodes it, and
    [DatumReader.read].  Bytes are integers in [0, 256). *)

Module Avro.

Inductive ftype : Type :=
| TInt                     (* "int": 32-bit signed *)
| TLong                    (* "long": 64-bit signed *)
| TString                  (* "string": UTF-8 text *)
| TArray (items : ftype).  (* {"type": "array", "items": ...} *)

(** A record schema: its fields, in declaration order. *)
Definition schema : Type := list (string * ftype).

Inductive value : Type :=
| VInt (z : Z)
| VStr (s : string)
| VList (l : list value).

(** A Python [dict] with string keys, in insertion order. *)
Definition dict : Type := list (string * value).

Fixpoint get (d : dict) (key : string) : option value :=
  match d with
  | [] => None
  | (k, v) :: d' => if String.eqb k key then Some v else get d' key
  end.

(** *** Validation *)

Fixpoint validate_type (t : ftype) (v : value) : bool :=
  match t, v with
  | TInt, VInt z => (- 2 ^ 31 <=? z) && (z <=? 2 ^ 31 - 1)
  | TLong, VInt z => (- 2 ^ 63 <=? z) && (z <=? 2 ^ 63 - 1)
  | TString, VStr _ => true
  | TArray it, VList l => forallb (validate_type it) l
  | _, _ => false
  end.

Definition validate_field (d : dict) (f : string * ftype) : bool :=
  match get d (fst f) with
  | Some v => validate_type (snd f) v
  | None => false
  end.

Definition validate (sch : schema) (d : dict) : bool :=
  forallb (validate_field d) sch.

(** *** [BinaryEncoder] *)

(** The loop of [write_long]: seven bits at a time, low bits first, the high
    bit of a byte set when more follow. *)
Fixpoint varint (fuel : nat) (n : Z) : list Z :=
  match fuel with
  | O => [n]
  | S f =>
      if Z.land n (Z.lnot 127) =? 0 then [n]
      else Z.lor (Z.land n 127) 128 :: varint f (Z.shiftr n 7)
  end.

Definition zigzag (n : Z) : Z := Z.lxor (Z.shiftl n 1) (Z.shiftr n 63).

Definition write_long (n : Z) : list Z :=
  let z := zigzag n in varint (Z.to_nat (Z.log2 z)) z.

Definition utf8_char (a : ascii) : list Z :=
  let n := Z.of_nat (nat_of_ascii a) in
  if n <? 128 then [n]
  else [Z.lor 192 (Z.shiftr n 6); Z.lor 128 (Z.land n 63)].

Fixpoint utf8_encode (s : string) : list Z :=
  match s with
  | EmptyString => []
  | String a s' => utf8_char a ++ utf8_encode s'
  end.

Definition write_utf8 (s : string) : list Z :=
  let b := utf8_encode s in write_long (Z.of_nat (List.length b)) ++ b.

(** [write_data]; the shapes excluded by validation write nothing. *)
Fixpoint write_data (t : ftype) (v : value) : list Z :=
  match t, v with
  | TInt, VInt z => write_long z
  | TLong, VInt z => write_long z
  | TString, VStr s => write_utf8 s
  | TArray it, VList l =>
      match l with
      | [] => write_long 0
      | _ :: _ =>
          write_long (Z.of_nat (List.length l))
            ++ flat_map (write_data it) l ++ write_long 0
      end
  | _, _ => []
  end.

Definition write_field (d : dict) (f : string * ftype) : list Z :=
  match get d (fst f) with
  | Some v => write_data (snd f) v
  | None => []
  end.

Definition write_record (sch : schema) (d : dict) : list Z :=
  flat_map (write_field d) sch.

(** [DatumWriter(schema).write(datum, encoder)]. *)
Definition write (sch : schema) (d : dict) : outcome (list Z) :=
  if validate sch d then Return (write_record sch d)
  else Raise AvroTypeException.

(** *** [BinaryDecoder]: every reader returns what it decoded and the bytes
    left, or nothing when the input ends early or is not an encoding. *)

Fixpoint read_varint (bs : list Z) (shift n : Z) : option (Z * list Z) :=
  match bs with
  | [] => None
  | b :: bs' =>
      let n' := Z.lor n (Z.shiftl (Z.land b 127) shift) in
      if Z.land b 128 =? 0 then Some (n', bs')
      else read_varint bs' (shift + 7) n'
  end.

Definition read_long (bs : list Z) : option (Z * list Z) :=
  match read_varint bs 0 0 with
  | Some (n, r) => Some (Z.lxor (Z.shiftr n 1) (- Z.land n 1), r)
  | None => None
  end.

Definition ascii_of_Z (n : Z) : ascii := ascii_of_nat (Z.to_nat n).

(** [bytes.decode('utf-8')], for text whose code points stay below 256. *)
Fixpoint utf8_decode (bs : list Z) : option string :=
  match bs with
  | [] => Some EmptyString
  | b :: r =>
      if b <? 128 then option_map (String (ascii_of_Z b)) (utf8_decode r)
      else if (b =? 194) || (b =? 195) then
        match r with
        | b2 :: r' =>
            if (128 <=? b2) && (b2 <? 192) then
              option_map
                (String (ascii_of_Z (Z.lor (Z.shiftl (Z.land b 31) 6) (Z.land b2 63))))
                (utf8_decode r')
            else None
        | [] => None
        end
      else None
  end.

Definition read_utf8 (bs : list Z) : option (string * list Z) :=
  match read_long bs with
  | Some (len, r) =>
      if (0 <=? len) && (len <=? Z.of_nat (List.length r)) then
        match utf8_decode (firstn (Z.to_nat len) r) with
        | Some s => Some (s, skipn (Z.to_nat len) r)
        | None => None
        end
      else None
  | None => None
  end.

Section ReadArray.
Variable read_item : list Z -> option (value * list Z).

Fixpoint read_items (n : nat) (acc : list value) (bs : list Z)
  : option (list value * list Z) :=
  match n with
  | O => Some (acc, bs)
  | S n' =>
      match read_item bs with
      | Some (v, r) => read_items n' (acc ++ [v])%list r
      | None => None
      end
  end.

(** The block loop of [read_array]; a negative count is followed by the
    block's size in bytes.  Every turn reads at least one byte, so
    [fuel] one above the number of bytes never runs out. *)
Fixpoint read_blocks (fuel : nat) (acc : list value) (bs : list Z)
  : option (list value * list Z) :=
  match fuel with
  | O => None
  | S f =>
      match read_long bs with
      | None => None
      | Some (c, r) =>
          if c =? 0 then Some (acc, r)
          else
            let body :=
              if c <? 0 then
                match read_long r with
                | Some (_, r') => read_items (Z.to_nat (- c)) acc r'
                | None => None
                end
              else read_items (Z.to_nat c) acc r in
            match body with
            | Some (acc', r'') => read_blocks f acc' r''
            | None => None
            end
      end
  end.
End ReadArray.

Fixpoint read_data (t : ftype) (bs : list Z) : option (value * list Z) :=
  match t with
  | TInt | TLong =>
      match read_long bs with
      | Some (z, r) => Some (VInt z, r)
      | None => None
      end
  | TString =>
      match read_utf8 bs with
      | Some (s, r) => Some (VStr s, r)
      | None => None
      end
  | TArray it =>
      match read_blocks (read_data it) (S (List.length bs)) [] bs with
      | Some (l, r) => Some (VList l, r)
      | None => None
      end
  end.

Fixpoint read_record (sch : schema) (acc : dict) (bs : list Z)
  : option (dict * list Z) :=
  match sch with
  | [] => Some (acc, bs)
  | (name, t) :: sch' =>
      match read_data t bs with
      | Some (v, r) => read_record sch' (acc ++ [(name, v)])%list r
      | None => None
      end
  end.

(** [DatumReader(schema).read(decoder)]: one datum from the head of the
    input. *)
Definition read (sch : schema) (bs : list Z) : outcome (dict * list Z) :=
  match read_record sch [] bs with
  | Some r => Return r
  | None => Raise InvalidAvroBinaryEncoding
  end.

End Avro.

(** ** Printed output *)

Inductive printed : Type :=
| PText (s : string)       (* print(f"...") *)
| PDatum (d : Avro.dict).  (* print(decoded_data) *)

(** A computation: the lines it printed, and its value or exception. *)
Definition io (A : Type) : Type := (list printed * outcome A)%type.

Definition ret {A} (a : A) : io A := ([], Return a).

Definition bind {A B} (m : io A) (f : A -> io B) : io B :=
  match m with
  | (o, Return a) => let (o', r) := f a in ((o ++ o')%list, r)
  | (o, Raise e) => (o, Raise e)
  end.

Definition lift {A} (m : outcome A) : io A := ([], m).

Definition print (s : string) : io unit := ([PText s], Return tt).

Notation "x <~ m ;; k" := (bind m (fun x => k))
  (at level 61, m at next level, right associativity).
Notation "m ;;; k" := (bind m (fun _ => k))
  (at level 61, right associativity).

(** ** The two scripts *)

Import Re Avro.

(** [(\d{4}-\d{2}-\d{2}T\d{2}:\d{2}:\d{2})], still open: both patterns
    start with it. *)
Definition timestamp_toks : list tok :=
  [TOpen; TCount CDigit 4; TLit "-"; TCount CDigit 2; TLit "-"; TCount CDigit 2;
   TLit "T"; TCount CDigit 2; TLit ":"; TCount CDigit 2; TLit ":"; TCount CDigit 2].

(** [(\d{4}-\d{2}-\d{2}T\d{2}:\d{2}:\d{2}),(\d+),GET /data/m/(.+?)/(\d+)\.mpg] *)
Definition movie_watch_pattern : list tok :=
  (timestamp_toks ++
   [TClose; TLit ","; TOpen; TPlus CDigit true; TClose;
    TLit ",GET /data/m/"; TOpen; TPlus CDot false; TClose;
    TLit "/"; TOpen; TPlus CDigit true; TClose; TLit ".mpg"])%list.

(** [(\d{4}-\d{2}-\d{2}T\d{2}:\d{2}:\d{2}\.\d+),(\d+),recommendation request (.*?), status (.*?), result: (.*?), (\d+) ms] *)
Definition recommendation_pattern : list tok :=
  (timestamp_toks ++
   [TLit "."; TPlus CDigit true; TClose; TLit ","; TOpen; TPlus CDigit true; TClose;
    TLit ",recommendation request "; TOpen; TStar CDot false; TClose;
    TLit ", status "; TOpen; TStar CDot false; TClose;
    TLit ", result: "; TOpen; TStar CDot false; TClose;
    TLit ", "; TOpen; TPlus CDigit true; TClose; TLit " ms"])%list.

Definition parse_movie_watch (entry : string) : io (option dict) :=
  match search movie_watch_pattern entry with
  | None =>
      print ("Unexpected format for Movie Watch log entry: " ++ entry) ;;;
      ret None
  | Some [time; userid; movieid; minute] =>
      uid <~ lift (Py.int userid) ;;
      ret (Some [("time", VStr time);
                 ("userid", VInt uid);
                 ("movieid", VStr (Py.replace "+" " " movieid));
                 ("minute", VStr minute)])
  | Some _ => lift (Raise ValueError)
  end.

Definition parse_recommendation (log_entry : string) : io (option dict) :=
  match search recommendation_pattern log_entry with
  | Some [time; userid; server; status; results; responsetime] =>
      uid <~ lift (Py.int userid) ;;
      st <~ lift (Py.int status) ;;
      let recommendations := Py.split ", " results in
      ret (Some [("time", VStr time);
                 ("userid", VInt uid);
                 ("server", VStr server);
                 ("status", VInt st);
                 ("recommendations", VList (map VStr recommendations));
                 ("responsetime", VStr (responsetime ++ " ms"))])
  | Some _ => lift (Raise ValueError)
  | None =>
      print ("Could not parse recommendation log entry: " ++ log_entry) ;;;
      ret None
  end.

Definition parse_rating (log_entry : string) : io (option dict) :=
  let parts := Py.split "," log_entry in
  time <~ lift (Py.index parts 0) ;;
  p1 <~ lift (Py.index parts 1) ;;
  userid <~ lift (Py.int p1) ;;
  p2 <~ lift (Py.index parts 2) ;;
  let movie_rating := Py.split "=" p2 in
  m0 <~ lift (Py.index movie_rating 0) ;;
  movieid <~ lift (Py.last (Py.split "/" m0)) ;;
  rating <~ lift (Py.index movie_rating 1) ;;
  ret (Some [("time", VStr time);
             ("userid", VInt userid);
             ("movieid", VStr movieid);
             ("rating", VStr rating)]).

(** What the second component of the dispatcher's result can be. *)
Inductive pyobj : Type :=
| ONone
| OSchema (s : schema)
| OTuple (l : list pyobj).

(** Truth value of an object in a condition. *)
Definition truthy (o : pyobj) : bool :=
  match o with
  | ONone => false
  | OSchema _ => true
  | OTuple l => negb (Nat.eqb (List.length l) 0)
  end.

(** [if data]: [None] and the empty dict are false. *)
Definition truthy_data (d : option dict) : bool :=
  match d with
  | Some (_ :: _) => true
  | _ => false
  end.

(** [DatumWriter(schema)] needs a schema object. *)
Definition encode_avro (data : dict) (sch : pyobj) : outcome (list Z) :=
  match sch with
  | OSchema s => Avro.write s data
  | _ => Raise AttributeError
  end.

Definition decode_avro (binary_data : list Z) (sch : schema) : outcome dict :=
  match Avro.read sch binary_data with
  | Return (d, _) => Return d
  | Raise e => Raise e
  end.

(** [read_from_avro], on the contents of the file at [file_path]. *)
Definition read_from_avro (binary_data : list Z) (sch : schema) : io unit :=
  decoded_data <~ lift (decode_avro binary_data sch) ;;
  ([PDatum decoded_data], Return tt).

Section Scripts.

(** The integer fields of the schema files: "long" when [long_ids], "int"
    otherwise. *)
Variable long_ids : bool.

Definition int_field : ftype := if long_ids then TLong else TInt.

(** Modelled from the spec: [recommendation_request_schema.avsc] is not
    among the sources.  Fields are those of the RecommendationRequest
    record, under the keys the parser uses. *)
Definition recommendation_request_schema : schema :=
  [("time", TString); ("userid", int_field); ("server", TString);
   ("status", int_field); ("recommendations", TArray TString);
   ("responsetime", TString)].

(** Modelled from the spec: [movie_watch_schema.avsc] is not among the
    sources.  Fields are those of the MovieWatchEvent record. *)
Definition movie_watch_schema : schema :=
  [("time", TString); ("userid", int_field); ("movieid", TString);
   ("minute", TString)].

(** Modelled from the spec: [movie_rating_schema.avsc] is not among the
    sources.  Fields are those of the MovieRatingEvent record. *)
Definition movie_rating_schema : schema :=
  [("time", TString); ("userid", int_field); ("movieid", TString);
   ("rating", TString)].

(** [return data, schema if data else (None, None)] is the pair of [data]
    and the conditional expression. *)
Definition identify_and_parse_log_entry (log_type log_entry : string)
  : io (option dict * pyobj) :=
  if String.eqb log_type "Recommendation" then
    data <~ parse_recommendation log_entry ;;
    ret (data, if truthy_data data then OSchema recommendation_request_schema
               else OTuple [ONone; ONone])
  else if String.eqb log_type "Movie" then
    data <~ parse_movie_watch log_entry ;;
    ret (data, if truthy_data data then OSchema movie_watch_schema
               else OTuple [ONone; ONone])
  else if String.eqb log_type "Rating" then
    data <~ parse_rating log_entry ;;
    ret (data, if truthy_data data then OSchema movie_rating_schema
               else OTuple [ONone; ONone])
  else
    print ("Skipping unknown log entry type: " ++ log_type) ;;;
    ret (None, ONone).

(** The three output files: the byte strings written to each, in order. *)
Record files : Type := {
  rec_file : list (list Z);
  movie_file : list (list Z);
  rating_file : list (list Z)
}.

Definition no_files : files :=
  {| rec_file := []; movie_file := []; rating_file := [] |}.

(** [file_objects[tag].write(binary_data)] *)
Definition file_write (tag : string) (b : list Z) (fs : files) : outcome files :=
  if String.eqb tag "Recommendation" then
    Return {| rec_file := (rec_file fs ++ [b])%list;
              movie_file := movie_file fs; rating_file := rating_file fs |}
  else if String.eqb tag "Movie" then
    Return {| rec_file := rec_file fs;
              movie_file := (movie_file fs ++ [b])%list;
              rating_file := rating_file fs |}
  else if String.eqb tag "Rating" then
    Return {| rec_file := rec_file fs; movie_file := movie_file fs;
              rating_file := (rating_file fs ++ [b])%list |}
  else Raise KeyError.

(** A row of [master.csv] with a text in both columns: its "Type" and
    "Log Entry".  [loop_turn], below, covers the other rows of the reader. *)
Definition row : Type := (string * string)%type.

(** The body of the [for row in reader] loop;
    [parsed_data is not None and schema] decides. *)
Definition process_row (r : row) (fs : files) : io files :=
  let (log_type, log_entry) := r in
  res <~ identify_and_parse_log_entry log_type log_entry ;;
  let (parsed_data, sch) := res in
  match parsed_data with
  | Some d =>
      if truthy sch then
        binary_data <~ lift (encode_avro d sch) ;;
        lift (file_write log_type binary_data fs)
      else
        print ("Skipping log entry due to parsing error: " ++ log_entry) ;;;
        ret fs
  | None =>
      print ("Skipping log entry due to parsing error: " ++ log_entry) ;;;
      ret fs
  end.

(** A value [row[key]] of the dict [csv.DictReader] yields for a row: the
    key is no column of the header ([KeyError]), the row is too short to
    reach the column ([None]), or the text of the field. *)
Inductive cell : Type :=
| Absent
| Null
| Text (s : string).

Record csv_row : Type := { type_cell : cell; entry_cell : cell }.

(** [f"{x}"] *)
Definition show (c : cell) : string :=
  match c with
  | Text s => s
  | _ => "None"
  end.

(** The body of the loop on any row of the reader.  [row['Type']] and
    [row['Log Entry']] are evaluated first, in this order.  With two texts
    the turn is [process_row].  [None] as the type is no known tag; [None]
    as the entry makes [re.search] raise [TypeError] in the two pattern
    parsers and [log_entry.split] raise [AttributeError] in the rating
    parser. *)
Definition loop_turn (r : csv_row) (fs : files) : io files :=
  match type_cell r, entry_cell r with
  | Absent, _ => lift (Raise KeyError)
  | _, Absent => lift (Raise KeyError)
  | Text log_type, Text log_entry => process_row (log_type, log_entry) fs
  | Text log_type, Null =>
      if String.eqb log_type "Recommendation" then lift (Raise TypeError)
      else if String.eqb log_type "Movie" then lift (Raise TypeError)
      else if String.eqb log_type "Rating" then lift (Raise AttributeError)
      else
        print ("Skipping unknown log entry type: " ++ log_type) ;;;
        print "Skipping log entry due to parsing error: None" ;;;
        ret fs
  | Null, entry =>
      print "Skipping unknown log entry type: None" ;;;
      print ("Skipping log entry due to parsing error: " ++ show entry) ;;;
      ret fs
  end.

(** How a run of the serializer ends. *)
Record run : Type := {
  written : files;
  stdout : list printed;
  raised : option exn
}.

Fixpoint for_rows (rows : list row) (fs : files) (out : list printed) : run :=
  match rows with
  | [] =>
      {| written := fs;
         stdout := (out ++ [PText "Binary Avro data has been written to files."])%list;
         raised := None |}
  | r :: rows' =>
      match process_row r fs with
      | (o, Return fs') => for_rows rows' fs' (out ++ o)%list
      | (o, Raise e) =>
          {| written := fs; stdout := (out ++ o)%list; raised := Some e |}
      end
  end.

Definition serializer (rows : list row) : run := for_rows rows no_files [].

(** The deserializer script, on the contents of the three files. *)
Definition deserializer (rec movie rating : list Z) : io unit :=
  print "Recommendation Requests:" ;;;
  read_from_avro rec recommendation_request_schema ;;;
  print (String "010" "Movie Watches:") ;;;
  read_from_avro movie movie_watch_schema ;;;
  print (String "010" "Movie Ratings:") ;;;
  read_from_avro rating movie_rating_schema.

End Scripts.

(** ** Vocabulary of the statements *)

(** A 64-bit signed integer. *)
Definition long_range (n : Z) : Prop := - 2 ^ 63 <= n <= 2 ^ 63 - 1.

(** The value of a string of decimal digits. *)
Fixpoint decimal (acc : Z) (s : string) : Z :=
  match s with
  | EmptyString => acc
  | String a s' => decimal (10 * acc + Py.digit_val a) s'
  end.

Fixpoint all_chars (P : ascii -> bool) (s : string) : bool :=
  match s with
  | EmptyString => true
  | String a s' => P a && all_chars P s'
  end.

(** A datum whose texts and lists have lengths a 64-bit interpreter can
    hold, and encode, in memory. *)
Fixpoint storable (v : value) : bool :=
  match v with
  | VInt _ => true
  | VStr s => Z.of_nat (String.length s) <? 2 ^ 62
  | VList l => (Z.of_nat (List.length l) <? 2 ^ 63) && forallb storable l
  end.

(** The field [f] of [d] is present, valid for its type, and storable. *)
Definition field_ok (d : dict) (f : string * ftype) : bool :=
  match get d (fst f) with
  | Some v => validate_type (snd f) v && storable v
  | None => false
  end.

(** The fields of [d] that the schema names, in schema order. *)
Definition project (sch : schema) (d : dict) : dict :=
  flat_map (fun f => match get d (fst f) with
                     | Some v => [(fst f, v)]
                     | None => []
                     end) sch.

(** Every value of the record fits its place in the schemas: an integer is
    in the range of the schemas' integer type, anything else is storable. *)
Definition fits (long_ids : bool) (kv : string * value) : bool :=
  match snd kv with
  | VInt z => validate_type (int_field long_ids) (VInt z)
  | v => storable v
  end.

(** The parser and the schema the dispatcher selects for a tag. *)
Definition parser_for (tag : string) : option (string -> io (option dict)) :=
  if String.eqb tag "Recommendation" then Some parse_recommendation
  else if String.eqb tag "Movie" then Some parse_movie_watch
  else if String.eqb tag "Rating" then Some parse_rating
  else None.

Definition schema_for (long_ids : bool) (tag : string) : schema :=
  if String.eqb tag "Recommendation" then recommendation_request_schema long_ids
  else if String.eqb tag "Movie" then movie_watch_schema long_ids
  else movie_rating_schema long_ids.

(** The record a row parses to, when its tag is known and its parser
    returns one. *)
Definition parsed (r : row) : option dict :=
  match parser_for (fst r) with
  | Some p =>
      match p (snd r) with
      | (_, Return (Some d)) => Some d
      | _ => None
      end
  | None => None
  end.

(** The records of the rows tagged [tag], in row order. *)
Definition records_of (tag : string) (rows : list row) : list dict :=
  flat_map (fun r => if String.eqb (fst r) tag
                     then match parsed r with Some d => [d] | None => [] end
                     else []) rows.

(** The file a tag designates. *)
Definition file_of (tag : string) (fs : files) : list (list Z) :=
  if String.eqb tag "Recommendation" then rec_file fs
  else if String.eqb tag "Movie" then movie_file fs
  else rating_file fs.

(** ** What a pattern matches, stated without the matcher *)

Module ReSpec.
Import Re.

(** The open group after the text [x] has been consumed. *)
Definition eats (x : string) (g : grp) : grp :=
  match g with
  | Some t => Some (t ++ x)%string
  | None => None
  end.

(** The closed groups after the open one, if any, is closed. *)
Definition close (g : grp) (caps : list string) : list string :=
  match g with
  | Some t => t :: caps
  | None => caps
  end.

(** [Lang p w]: the tokens [p] match exactly the text [w]. *)
Inductive Lang : list tok -> string -> Prop :=
| LNil : Lang [] EmptyString
| LLit l p w : Lang p w -> Lang (TLit l :: p) (l ++ w)
| LCount c n p x w :
    all_chars (in_class c) x = true -> String.length x = n ->
    Lang p w -> Lang (TCount c n :: p) (x ++ w)
| LStar c gr p x w :
    all_chars (in_class c) x = true ->
    Lang p w -> Lang (TStar c gr :: p) (x ++ w)
| LPlus c gr p x w :
    all_chars (in_class c) x = true -> x <> EmptyString ->
    Lang p w -> Lang (TPlus c gr :: p) (x ++ w)
| LOpen p w : Lang p w -> Lang (TOpen :: p) w
| LClose p w : Lang p w -> Lang (TClose :: p) w.

(** [Run p caps g w r]: the tokens [p] match exactly [w], starting with the
    closed groups [caps] and the open group [g], and the groups are [r] at
    the end. *)
Inductive Run : list tok -> list string -> grp -> string -> list string -> Prop :=
| RNil caps g : Run [] caps g EmptyString (rev caps)
| RLit l p caps g w r :
    Run p caps (eats l g) w r -> Run (TLit l :: p) caps g (l ++ w) r
| RCount c n p caps g x w r :
    all_chars (in_class c) x = true -> String.length x = n ->
    Run p caps (eats x g) w r -> Run (TCount c n :: p) caps g (x ++ w) r
| RStar c gr p caps g x w r :
    all_chars (in_class c) x = true ->
    Run p caps (eats x g) w r -> Run (TStar c gr :: p) caps g (x ++ w) r
| RPlus c gr p caps g x w r :
    all_chars (in_class c) x = true -> x <> EmptyString ->
    Run p caps (eats x g) w r -> Run (TPlus c gr :: p) caps g (x ++ w) r
| ROpen p caps g w r :
    Run p caps (Some EmptyString) w r -> Run (TOpen :: p) caps g w r
| RClose p caps g w r :
    Run p (close g caps) None w r -> Run (TClose :: p) caps g w r.

(** [p] matches at the head of [s]. *)
Definition Pre (p : list tok) (s : string) : Prop :=
  exists w e, s = (w ++ e)%string /\ Lang p w.

Fixpoint occurs (a : ascii) (s : string) : bool :=
  match s with
  | EmptyString => false
  | String b s' => Ascii.eqb b a || occurs a s'
  end.

(** The characters a token can consume. *)
Definition tok_allows (a : ascii) (t : tok) : bool :=
  match t with
  | TLit l => occurs a l
  | TCount c _ | TStar c _ | TPlus c _ => in_class c a
  | TOpen | TClose => false
  end.

Definition allowed (p : list tok) (a : ascii) : bool := existsb (tok_allows a) p.

(** Appending text never changes a successful match of [p]. *)
Definition Stable (p : list tok) : Prop :=
  forall caps s g r post,
    rmatch p caps s g = Some r -> rmatch p caps (s ++ post) g = Some r.

(** After skipping the non-empty text [z] (of class [c]), a match of [p]
    that needs the appended text implies one that does not. *)
Definition Firm (P : ascii -> bool) (p : list tok) : Prop :=
  forall z y post,
    z <> EmptyString -> all_chars P z = true ->
    Pre p y -> Pre p ((z ++ y) ++ post) -> Pre p (z ++ y).

(** [p] cannot start with a character of class [c], nor match the empty
    text. *)
Definition Rejects (c : cclass) (p : list tok) : Prop :=
  (forall caps g a s, in_class c a = true -> rmatch p caps (String a s) g = None)
  /\ (forall caps g, rmatch p caps EmptyString g = None).

(** The same, for what remains of a pattern. *)
Definition KStable {R} (k : string -> grp -> option R) : Prop :=
  forall s g r post, k s g = Some r -> k (s ++ post)%string g = Some r.

(** Text of class [.] in front of a match of [r] is absorbed into it. *)
Definition Absorbs (r : list tok) : Prop :=
  forall t w, all_chars (in_class CDot) t = true -> Lang r w -> Lang r (t ++ w)%string.

End ReSpec.

(** ** Log lines and runs, for the statements about whole lines *)

(** A non-empty run of decimal digits. *)
Definition digits (s : string) : bool :=
  all_chars Py.is_digit s && negb (String.eqb s "").

(** A run of digits short enough for [int()] to convert. *)
Definition within_cap (s : string) : bool :=
  Z.of_nat (String.length s) <=? Py.int_max_str_digits.

(** [n] times the digit 9. *)
Fixpoint nines (n : nat) : string :=
  match n with
  | O => EmptyString
  | S n' => String "9" (nines n')
  end.

(** A run of exactly [n] decimal digits. *)
Definition digits_n (n : nat) (s : string) : bool :=
  all_chars Py.is_digit s && Nat.eqb (String.length s) n.

(** None of the characters of [seps] occurs in [s]. *)
Fixpoint free_of (seps s : string) : bool :=
  match seps with
  | EmptyString => true
  | String c seps' => negb (ReSpec.occurs c s) && free_of seps' s
  end.


(** The first character of [s] is of class [c]. *)
Definition starts_in (c : Re.cclass) (s : string) : bool :=
  match s with
  | String a _ => Re.in_class c a
  | EmptyString => false
  end.

(** A text without a line feed: what [.] matches. *)
Definition one_line (s : string) : bool := all_chars (Re.in_class Re.CDot) s.

(** A movie's name as the movie-watch pattern takes it whole: not empty,
    on one line, without "/". *)
Definition movie_name (s : string) : bool :=
  negb (String.eqb s "") && one_line s && negb (ReSpec.occurs "/" s).

(** The six fields of a time stamp [YYYY-MM-DDThh:mm:ss]. *)
Record stamp : Type := {
  year : string; month : string; day : string;
  hour : string; mins : string; secs : string
}.

Definition stamp_ok (t : stamp) : bool :=
  digits_n 4 (year t) && digits_n 2 (month t) && digits_n 2 (day t)
  && digits_n 2 (hour t) && digits_n 2 (mins t) && digits_n 2 (secs t).

Definition stamp_text (t : stamp) : string :=
  year t ++ "-" ++ month t ++ "-" ++ day t ++ "T"
  ++ hour t ++ ":" ++ mins t ++ ":" ++ secs t.

(** A movie-watch line. *)
Definition movie_watch_line (t : stamp) (userid movieid minute : string) : string :=
  stamp_text t ++ "," ++ userid ++ ",GET /data/m/" ++ movieid ++ "/"
  ++ minute ++ ".mpg".


(** A recommendation line; [frac] is the fraction of the second. *)
Definition recommendation_line (t : stamp)
    (frac userid server status results responsetime : string) : string :=
  stamp_text t ++ "." ++ frac ++ "," ++ userid ++ ",recommendation request "
  ++ server ++ ", status " ++ status ++ ", result: " ++ results ++ ", "
  ++ responsetime ++ " ms".


(** The loop does something other than skip the row: its tag is known and
    its parser does not report failure. *)
Definition kept (r : row) : bool :=
  match parser_for (fst r) with
  | Some p =>
      match p (snd r) with
      | (_, Return None) => false
      | _ => true
      end
  | None => false
  end.

(** The line the serializer prints last. *)
Definition confirmation : printed :=
  PText "Binary Avro data has been written to files.".

(** The contents of a file: what was written to it, in order. *)
Definition contents (writes : list (list Z)) : list Z := List.concat writes.

(** What a parser, or the dispatcher, prints about a row it gives up on. *)
Definition rejection (r : row) : string :=
  if String.eqb (fst r) "Recommendation" then
    "Could not parse recommendation log entry: " ++ snd r
  else if String.eqb (fst r) "Movie" then
    "Unexpected format for Movie Watch log entry: " ++ snd r
  else "Skipping unknown log entry type: " ++ fst r.

(** The two lines printed for a skipped row; nothing for another row. *)
Definition report (r : row) : list printed :=
  if kept r then []
  else [PText (rejection r);
        PText ("Skipping log entry due to parsing error: " ++ snd r)].

(** An integer of the record is in the range of the schemas' integer type;
    the other values are not looked at. *)
Definition int_fits (long_ids : bool) (kv : string * value) : bool :=
  match snd kv with
  | VInt z => validate_type (int_field long_ids) (VInt z)
  | _ => true
  end.
(** * Properties of the codec *)

Module AvroFacts.
Import Avro.
Local Open Scope Z_scope.
Local Open Scope list_scope.

Lemma testbit_127 i : 0 <= i -> Z.testbit 127 i = (i <? 7).
Proof.
  intros Hi. change 127 with (Z.ones 7).
  destruct (Z.ltb_spec i 7).
  - apply Z.ones_spec_low; lia.
  - apply Z.ones_spec_high; lia.
Qed.

Lemma split7 n : n = Z.lor (Z.land n 127) (Z.shiftl (Z.shiftr n 7) 7).
Proof.
  apply Z.bits_inj'; intros i Hi.
  rewrite Z.lor_spec, Z.land_spec, testbit_127 by lia.
  rewrite Z.shiftl_spec by lia.
  destruct (Z.ltb_spec i 7).
  - rewrite (Z.testbit_neg_r _ (i - 7)) by lia.
    now rewrite andb_true_r, orb_false_r.
  - rewrite Z.shiftr_spec by lia.
    rewrite andb_false_r. simpl. f_equal. lia.
Qed.

Lemma land_high_zero n :
  Z.land n (Z.lnot 127) = 0 -> Z.land n 127 = n.
Proof.
  intros H. apply Z.bits_inj'; intros i Hi.
  rewrite Z.land_spec, testbit_127 by lia.
  destruct (Z.ltb_spec i 7).
  - apply andb_true_r.
  - rewrite andb_false_r.
    assert (Hb : Z.testbit (Z.land n (Z.lnot 127)) i = false)
      by (rewrite H; apply Z.bits_0).
    rewrite Z.land_spec, Z.lnot_spec, testbit_127 in Hb by lia.
    destruct (Z.ltb_spec i 7); [lia|].
    simpl in Hb. now rewrite andb_true_r in Hb.
Qed.

Lemma read_last_byte n rest shift acc :
  Z.land n (Z.lnot 127) = 0 ->
  read_varint (n :: rest) shift acc = Some (Z.lor acc (Z.shiftl n shift), rest).
Proof.
  intros H. pose proof (land_high_zero n H) as E.
  simpl. rewrite E.
  assert (Z.land n 128 = 0) as ->.
  { rewrite <- E, <- Z.land_assoc. change (Z.land 127 128) with 0.
    apply Z.land_0_r. }
  reflexivity.
Qed.

Lemma varint_read fuel : forall n rest shift acc,
  0 <= n -> 0 <= shift -> Z.log2 n <= Z.of_nat fuel ->
  read_varint (varint fuel n ++ rest) shift acc
  = Some (Z.lor acc (Z.shiftl n shift), rest).
Proof.
  induction fuel as [|f IH]; intros n rest shift acc Hn Hs Hl.
  - simpl varint. simpl app. apply read_last_byte.
    assert (n = 0 \/ n = 1) as [-> | ->]; [|reflexivity..].
    destruct (Z.eq_dec n 0); [now left|right].
    assert (0 < n) by lia.
    pose proof (Z.log2_spec n H) as [L _].
    assert (Z.log2 n = 0) as E by (pose proof (Z.log2_nonneg n); lia).
    pose proof (Z.log2_spec n H) as [_ U]. rewrite E in U. simpl in U. lia.
  - simpl varint.
    destruct (Z.eqb_spec (Z.land n (Z.lnot 127)) 0) as [E|E].
    + simpl app. now apply read_last_byte.
    + assert (0 < n).
      { destruct (Z.eq_dec n 0) as [->|]; [|lia]. now rewrite Z.land_0_l in E. }
      cbn [app read_varint].
      assert (Z.land (Z.lor (Z.land n 127) 128) 127 = Z.land n 127) as ->.
      { rewrite Z.land_lor_distr_l, <- Z.land_assoc.
        change (Z.land 127 127) with 127. change (Z.land 128 127) with 0.
        apply Z.lor_0_r. }
      assert (Z.land (Z.lor (Z.land n 127) 128) 128 = 128) as ->.
      { rewrite Z.land_lor_distr_l, <- Z.land_assoc.
        change (Z.land 127 128) with 0. change (Z.land 128 128) with 128.
        now rewrite Z.land_0_r. }
      change (128 =? 0) with false. cbv iota.
      rewrite IH.
      * f_equal. f_equal. rewrite (split7 n) at 3.
        rewrite Z.shiftl_lor, Z.shiftl_shiftl by lia.
        rewrite Z.lor_assoc. do 2 f_equal. lia.
      * apply Z.shiftr_nonneg. lia.
      * lia.
      * rewrite Z.log2_shiftr by lia. lia.
Qed.

Lemma zigzag_val n :
  long_range n -> zigzag n = if n <? 0 then - 2 * n - 1 else 2 * n.
Proof.
  unfold long_range, zigzag. intros H.
  rewrite Z.shiftl_mul_pow2, Z.shiftr_div_pow2 by lia.
  destruct (Z.ltb_spec n 0).
  - assert (n / 2 ^ 63 = -1) as ->
      by (symmetry; apply Z.div_unique with (r := n + 2 ^ 63); lia).
    rewrite Z.lxor_m1_r. unfold Z.lnot. lia.
  - rewrite Z.div_small by lia. rewrite Z.lxor_0_r. lia.
Qed.

Lemma zigzag_nonneg n : long_range n -> 0 <= zigzag n.
Proof.
  intros H. rewrite zigzag_val by assumption.
  unfold long_range in H. destruct (Z.ltb_spec n 0); lia.
Qed.

Lemma land_1 x : Z.land x 1 = x mod 2.
Proof. change (Z.land x (Z.ones 1) = x mod 2 ^ 1). apply Z.land_ones. lia. Qed.

Lemma shiftr_1 x : Z.shiftr x 1 = x / 2.
Proof. change (Z.shiftr x 1 = x / 2 ^ 1). apply Z.shiftr_div_pow2. lia. Qed.

Lemma zigzag_inv n :
  long_range n ->
  Z.lxor (Z.shiftr (zigzag n) 1) (- Z.land (zigzag n) 1) = n.
Proof.
  intros H. rewrite zigzag_val by assumption.
  rewrite land_1, shiftr_1.
  destruct (Z.ltb_spec n 0).
  - replace (- 2 * n - 1) with ((- n - 1) * 2 + 1) by lia.
    assert (((- n - 1) * 2 + 1) / 2 = - n - 1) as ->
      by (symmetry; apply Z.div_unique with (r := 1); lia).
    assert (((- n - 1) * 2 + 1) mod 2 = 1) as ->
      by (symmetry; apply Z.mod_unique with (q := - n - 1); lia).
    change (- (1)) with (-1).
    rewrite Z.lxor_m1_r. unfold Z.lnot. lia.
  - rewrite (Z.mul_comm 2 n), Z.div_mul, Z.mod_mul by lia.
    apply Z.lxor_0_r.
Qed.

Lemma read_write_long n rest :
  long_range n -> read_long (write_long n ++ rest) = Some (n, rest).
Proof.
  intros H. unfold read_long, write_long. cbv zeta.
  pose proof (zigzag_nonneg n H).
  rewrite varint_read by lia.
  rewrite Z.lor_0_l, Z.shiftl_0_r. now rewrite zigzag_inv.
Qed.


Lemma utf8_decode_char a r :
  utf8_decode (utf8_char a ++ r) = option_map (String a) (utf8_decode r).
Proof.
  destruct a as [[|] [|] [|] [|] [|] [|] [|] [|]]; reflexivity.
Qed.

Lemma utf8_char_length a : (List.length (utf8_char a) <= 2)%nat.
Proof.
  unfold utf8_char. cbv zeta.
  destruct (Z.of_nat (nat_of_ascii a) <? 128); simpl; lia.
Qed.

Lemma utf8_encode_length s :
  (List.length (utf8_encode s) <= 2 * String.length s)%nat.
Proof.
  induction s as [|a s IH]; simpl; [lia|].
  rewrite length_app. pose proof (utf8_char_length a). lia.
Qed.

Lemma utf8_decode_encode s : utf8_decode (utf8_encode s) = Some s.
Proof.
  induction s as [|a s IH]; [reflexivity|].
  simpl utf8_encode. now rewrite utf8_decode_char, IH.
Qed.

Lemma read_write_utf8 s rest :
  Z.of_nat (String.length s) < 2 ^ 62 ->
  read_utf8 (write_utf8 s ++ rest) = Some (s, rest).
Proof.
  intros H. unfold read_utf8, write_utf8. cbv zeta.
  pose proof (utf8_encode_length s) as L.
  rewrite <- app_assoc, read_write_long by (unfold long_range; lia).
  rewrite length_app.
  assert ((0 <=? Z.of_nat (List.length (utf8_encode s)))
          && (Z.of_nat (List.length (utf8_encode s))
              <=? Z.of_nat (List.length (utf8_encode s) + List.length rest)) = true) as ->.
  { apply andb_true_intro; split; apply Z.leb_le; lia. }
  rewrite Nat2Z.id.
  rewrite firstn_app, Nat.sub_diag, firstn_all, firstn_O, app_nil_r.
  rewrite utf8_decode_encode.
  now rewrite skipn_app, Nat.sub_diag, skipn_all, skipn_O.
Qed.

Lemma write_long_nonempty n : write_long n <> [].
Proof.
  unfold write_long. cbv zeta.
  destruct (Z.to_nat (Z.log2 (zigzag n))); simpl; [discriminate|].
  destruct (Z.land (zigzag n) (Z.lnot 127) =? 0); discriminate.
Qed.

Lemma read_write_items (it : ftype) :
  (forall v rest, validate_type it v = true -> storable v = true ->
                  read_data it (write_data it v ++ rest) = Some (v, rest)) ->
  forall l acc rest,
    forallb (validate_type it) l = true -> forallb storable l = true ->
    read_items (read_data it) (List.length l) acc (flat_map (write_data it) l ++ rest)
    = Some ((acc ++ l)%list, rest).
Proof.
  intros IH l. induction l as [|v l IHl]; intros acc rest Hv Hs.
  - simpl. now rewrite app_nil_r.
  - simpl in Hv, Hs. apply andb_prop in Hv as [Hv1 Hv2].
    apply andb_prop in Hs as [Hs1 Hs2].
    simpl. rewrite <- app_assoc, IH by assumption.
    rewrite IHl by assumption. now rewrite <- app_assoc.
Qed.

Lemma read_write_data t : forall v rest,
  validate_type t v = true -> storable v = true ->
  read_data t (write_data t v ++ rest) = Some (v, rest).
Proof.
  induction t as [| | |it IH]; intros v rest Hv Hs;
    destruct v as [z|s|l]; try discriminate Hv.
  - cbn [validate_type] in Hv. cbn [read_data write_data].
    apply andb_prop in Hv as [H1 H2]. apply Z.leb_le in H1, H2.
    rewrite read_write_long by (unfold long_range; lia). reflexivity.
  - cbn [validate_type] in Hv. cbn [read_data write_data].
    apply andb_prop in Hv as [H1 H2]. apply Z.leb_le in H1, H2.
    rewrite read_write_long by (unfold long_range; lia). reflexivity.
  - cbn [storable] in Hs. cbn [read_data write_data].
    apply Z.ltb_lt in Hs. now rewrite read_write_utf8.
  - cbn [validate_type storable] in Hv, Hs.
    apply andb_prop in Hs as [Hlen Hs]. apply Z.ltb_lt in Hlen.
    cbn [read_data write_data].
    destruct l as [|v l].
    + cbn [read_blocks].
      rewrite read_write_long by (unfold long_range; lia). reflexivity.
    + set (l' := v :: l) in *.
      set (bs := (write_long (Z.of_nat (List.length l'))
                    ++ flat_map (write_data it) l' ++ write_long 0) ++ rest).
      assert (2 <= List.length bs)%nat as Hbs.
      { unfold bs. rewrite !length_app.
        pose proof (write_long_nonempty (Z.of_nat (List.length l'))).
        pose proof (write_long_nonempty 0).
        destruct (write_long (Z.of_nat (List.length l'))); [congruence|].
        destruct (write_long 0); [congruence|]. simpl. lia. }
      destruct (List.length bs) as [|[|n]] eqn:En; try lia.
      unfold bs. cbn [read_blocks].
      rewrite <- !app_assoc, read_write_long by (unfold long_range; lia).
      assert ((Z.of_nat (List.length l') =? 0) = false) as ->
        by (apply Z.eqb_neq; subst l'; simpl; lia).
      assert ((Z.of_nat (List.length l') <? 0) = false) as ->
        by (apply Z.ltb_ge; lia).
      rewrite Nat2Z.id, (read_write_items it IH) by assumption.
      rewrite read_write_long by (unfold long_range; lia). reflexivity.
Qed.


Lemma read_write_record sch : forall d acc rest,
  forallb (field_ok d) sch = true ->
  read_record sch acc (write_record sch d ++ rest)
  = Some (acc ++ project sch d, rest).
Proof.
  induction sch as [|[name t] sch IH]; intros d acc rest H.
  - simpl. now rewrite app_nil_r.
  - cbn [forallb] in H. apply andb_prop in H as [Hf H].
    unfold field_ok in Hf. cbn [fst snd] in Hf.
    change (write_record ((name, t) :: sch) d)
      with (write_field d (name, t) ++ write_record sch d).
    change (project ((name, t) :: sch) d)
      with (match get d name with
            | Some v => [(name, v)]
            | None => []
            end ++ project sch d).
    unfold write_field. cbn [fst snd read_record].
    destruct (get d name) as [v|]; [|discriminate].
    apply andb_prop in Hf as [Hv Hs].
    rewrite <- app_assoc, read_write_data by assumption.
    rewrite IH by assumption. now rewrite <- app_assoc.
Qed.

Lemma field_ok_validate sch d :
  forallb (field_ok d) sch = true -> validate sch d = true.
Proof.
  unfold validate. rewrite !forallb_forall. intros H f Hf.
  specialize (H f Hf). unfold field_ok in H. unfold validate_field.
  destruct (get d (fst f)); [|discriminate].
  now apply andb_prop in H as [H _].
Qed.

End AvroFacts.

(** * Properties of the scripts *)

Local Open Scope list_scope.

(** What a record returned by a parser looks like. *)

Lemma parse_movie_watch_shape entry out d :
  parse_movie_watch entry = (out, Return (Some d)) ->
  exists t u z m mn,
    Py.int u = Return z /\
    d = [("time", VStr t); ("userid", VInt z);
         ("movieid", VStr (Py.replace "+" " " m)); ("minute", VStr mn)].
Proof.
  unfold parse_movie_watch, bind, lift, ret, print. intros H.
  destruct (search movie_watch_pattern entry) as [[|t [|u [|m [|mn [|? ?]]]]]|];
    try discriminate H.
  destruct (Py.int u) as [z|] eqn:E; [|discriminate H].
  injection H as _ <-. now exists t, u, z, m, mn.
Qed.

Lemma parse_recommendation_shape entry out d :
  parse_recommendation entry = (out, Return (Some d)) ->
  exists t u z sv s st res rt,
    Py.int u = Return z /\ Py.int s = Return st /\
    d = [("time", VStr t); ("userid", VInt z); ("server", VStr sv);
         ("status", VInt st);
         ("recommendations", VList (map VStr (Py.split ", " res)));
         ("responsetime", VStr (rt ++ " ms")%string)].
Proof.
  unfold parse_recommendation, bind, lift, ret, print. intros H.
  destruct (search recommendation_pattern entry)
    as [[|t [|u [|sv [|s [|res [|rt [|? ?]]]]]]]|]; try discriminate H.
  destruct (Py.int u) as [z|] eqn:E; [|discriminate H].
  destruct (Py.int s) as [st|] eqn:E'; [|discriminate H].
  injection H as _ <-. now exists t, u, z, sv, s, st, res, rt.
Qed.

Lemma parse_rating_shape entry out d :
  parse_rating entry = (out, Return (Some d)) ->
  exists t z m r,
    d = [("time", VStr t); ("userid", VInt z); ("movieid", VStr m);
         ("rating", VStr r)].
Proof.
  unfold parse_rating, bind, lift, ret. intros H.
  destruct (Py.index (Py.split "," entry) 0) as [t|]; [|discriminate H].
  destruct (Py.index (Py.split "," entry) 1) as [p1|]; [|discriminate H].
  destruct (Py.int p1) as [z|]; [|discriminate H].
  destruct (Py.index (Py.split "," entry) 2) as [p2|]; [|discriminate H].
  destruct (Py.index (Py.split "=" p2) 0) as [m0|]; [|discriminate H].
  destruct (Py.last (Py.split "/" m0)) as [m|]; [|discriminate H].
  destruct (Py.index (Py.split "=" p2) 1) as [r|]; [|discriminate H].
  injection H as _ <-. now exists t, z, m, r.
Qed.

Lemma validate_strings l : forallb (validate_type TString) (map VStr l) = true.
Proof. induction l; simpl; auto. Qed.

Lemma parser_for_cases tag p :
  parser_for tag = Some p ->
  (tag = "Recommendation" /\ p = parse_recommendation)
  \/ (tag = "Movie" /\ p = parse_movie_watch)
  \/ (tag = "Rating" /\ p = parse_rating).
Proof.
  unfold parser_for. intros H.
  destruct (String.eqb_spec tag "Recommendation");
    [left; split; congruence|].
  destruct (String.eqb_spec tag "Movie");
    [right; left; split; congruence|].
  destruct (String.eqb_spec tag "Rating");
    [right; right; split; congruence|discriminate].
Qed.

(** A record of a parser that fits the schemas is accepted field by field. *)
Lemma parsed_fields_ok long_ids tag p line out d :
  parser_for tag = Some p ->
  p line = (out, Return (Some d)) ->
  forallb (fits long_ids) d = true ->
  forallb (field_ok d) (schema_for long_ids tag) = true
  /\ project (schema_for long_ids tag) d = d.
Proof.
  intros Hp Hl Hf.
  destruct (parser_for_cases _ _ Hp) as [[-> ->]|[[-> ->]|[-> ->]]].
  - destruct (parse_recommendation_shape _ _ _ Hl)
      as (t & u & z & sv & s & st & res & rt & _ & _ & ->).
    cbn [forallb fits snd] in Hf.
    repeat (apply andb_prop in Hf as [? Hf]).
    split; [|reflexivity].
    unfold schema_for, recommendation_request_schema.
    cbn [String.eqb Ascii.eqb Bool.eqb forallb field_ok get fst snd].
    rewrite H, H0, H1, H2, H3, H4.
    cbn [validate_type storable]. rewrite validate_strings. reflexivity.
  - destruct (parse_movie_watch_shape _ _ _ Hl)
      as (t & u & z & m & mn & _ & ->).
    cbn [forallb fits snd] in Hf.
    repeat (apply andb_prop in Hf as [? Hf]).
    split; [|reflexivity].
    unfold schema_for, movie_watch_schema.
    cbn [String.eqb Ascii.eqb Bool.eqb forallb field_ok get fst snd].
    rewrite H, H0, H1, H2. reflexivity.
  - destruct (parse_rating_shape _ _ _ Hl) as (t & z & m & r & ->).
    cbn [forallb fits snd] in Hf.
    repeat (apply andb_prop in Hf as [? Hf]).
    split; [|reflexivity].
    unfold schema_for, movie_rating_schema.
    cbn [String.eqb Ascii.eqb Bool.eqb forallb field_ok get fst snd].
    rewrite H, H0, H1, H2. reflexivity.
Qed.

(** The dispatcher, by whether the tag is one of the three. *)

Lemma dispatch_known long_ids tag line p :
  parser_for tag = Some p ->
  identify_and_parse_log_entry long_ids tag line
  = (data <~ p line ;;
     ret (data, if truthy_data data then OSchema (schema_for long_ids tag)
                else OTuple [ONone; ONone])).
Proof.
  intros H.
  destruct (parser_for_cases _ _ H) as [[-> ->]|[[-> ->]|[-> ->]]];
    reflexivity.
Qed.

Lemma dispatch_unknown long_ids tag line :
  parser_for tag = None ->
  identify_and_parse_log_entry long_ids tag line
  = ([PText ("Skipping unknown log entry type: " ++ tag)%string],
     Return (None, ONone)).
Proof.
  unfold parser_for, identify_and_parse_log_entry. intros H.
  destruct (String.eqb tag "Recommendation"); [discriminate|].
  destruct (String.eqb tag "Movie"); [discriminate|].
  destruct (String.eqb tag "Rating"); [discriminate|].
  reflexivity.
Qed.

Lemma file_write_known tag p b fs :
  parser_for tag = Some p ->
  exists fs', file_write tag b fs = Return fs'
    /\ file_of tag fs' = file_of tag fs ++ [b]
    /\ forall tag' p', parser_for tag' = Some p' -> tag' <> tag ->
                       file_of tag' fs' = file_of tag' fs.
Proof.
  intros H.
  destruct (parser_for_cases _ _ H) as [[-> ->]|[[-> ->]|[-> ->]]];
    (eexists; split; [reflexivity|]; split; [reflexivity|]);
    intros tag' p' H' Hne;
    destruct (parser_for_cases _ _ H') as [[-> ->]|[[-> ->]|[-> ->]]];
    try reflexivity; congruence.
Qed.

(** One turn of the loop that does not raise appends the row's record, if
    it has one, to the file of its tag, and touches nothing else. *)
Lemma process_row_files long_ids r fs o fs' :
  process_row long_ids r fs = (o, Return fs') ->
  forall tag p, parser_for tag = Some p ->
    file_of tag fs'
    = file_of tag fs
        ++ map (write_record (schema_for long_ids tag)) (records_of tag [r]).
Proof.
  destruct r as [ty line]. intros H tag p Hp.
  unfold records_of, parsed. cbn [flat_map fst snd]. rewrite app_nil_r.
  unfold process_row in H.
  destruct (parser_for ty) as [q|] eqn:Hq.
  - rewrite (dispatch_known long_ids ty line q Hq) in H.
    unfold bind, ret, lift in H.
    destruct (q line) as [o1 [[d|]|e]]; cbn in H.
    + destruct d as [|kv d]; cbn in H; [discriminate H|].
      unfold Avro.write in H.
      destruct (validate (schema_for long_ids ty) (kv :: d)); cbn in H;
        [|discriminate H].
      destruct (file_write_known ty q
                  (write_record (schema_for long_ids ty) (kv :: d)) fs Hq)
        as (fs1 & E1 & E2 & E3).
      rewrite E1 in H. injection H as _ <-.
      destruct (String.eqb_spec ty tag) as [->|Hne].
      * rewrite E2. reflexivity.
      * rewrite (E3 tag p Hp) by congruence. cbn [map]. now rewrite app_nil_r.
    + injection H as _ <-.
      destruct (String.eqb ty tag); cbn [map]; now rewrite app_nil_r.
    + discriminate H.
  - rewrite (dispatch_unknown long_ids ty line Hq) in H. cbn in H.
    injection H as _ <-.
    destruct (String.eqb_spec ty tag) as [->|Hne]; [congruence|].
    cbn [map]. now rewrite app_nil_r.
Qed.

Lemma records_of_cons tag r rows :
  records_of tag (r :: rows) = records_of tag [r] ++ records_of tag rows.
Proof. unfold records_of. cbn [flat_map]. now rewrite app_nil_r. Qed.

Lemma for_rows_files long_ids rows : forall fs out,
  raised (for_rows long_ids rows fs out) = None ->
  forall tag p, parser_for tag = Some p ->
    file_of tag (written (for_rows long_ids rows fs out))
    = file_of tag fs
        ++ map (write_record (schema_for long_ids tag)) (records_of tag rows).
Proof.
  induction rows as [|r rows IH]; intros fs out H tag p Hp.
  - cbn [for_rows written records_of flat_map map]. now rewrite app_nil_r.
  - cbn [for_rows] in *.
    destruct (process_row long_ids r fs) as [o [fs'|e]] eqn:E;
      [|discriminate H].
    rewrite (IH _ _ H tag p Hp), (process_row_files _ _ _ _ _ E tag p Hp).
    now rewrite (records_of_cons tag r rows), map_app, app_assoc.
Qed.

(** ** [split] and [last] *)

Lemma split_from_nonempty sep s : forall k, Py.split_from sep k s <> [].
Proof.
  induction s as [|a s IH]; intros k; cbn [Py.split_from]; [discriminate|].
  destruct k; [|apply IH].
  destruct (prefix sep (String a s)); [discriminate|].
  destruct (Py.split_from sep 0 s); discriminate.
Qed.

Lemma last_split sep s : exists m, Py.last (Py.split sep s) = Return m.
Proof.
  unfold Py.last, Py.split.
  pose proof (split_from_nonempty sep s 0) as H.
  destruct (rev (Py.split_from sep 0 s)) as [|m l] eqn:E.
  - apply (f_equal (@rev string)) in E. rewrite rev_involutive in E.
    now rewrite E in H.
  - now exists m.
Qed.

(** * Properties of the matcher *)

Module ReFacts.
Import Re ReSpec.
Local Open Scope string_scope.

(** ** Strings *)

Lemma sapp_nil_r (s : string) : s ++ "" = s.
Proof. induction s; simpl; congruence. Qed.

Lemma sapp_assoc (a b c : string) : a ++ b ++ c = (a ++ b) ++ c.
Proof. induction a; simpl; congruence. Qed.

Lemma slength_app (a b : string) :
  String.length (a ++ b) = (String.length a + String.length b)%nat.
Proof. induction a; simpl; congruence. Qed.

Lemma all_chars_app P (a b : string) :
  all_chars P (a ++ b) = all_chars P a && all_chars P b.
Proof. induction a; simpl; [reflexivity|]. now rewrite IHa, andb_assoc. Qed.

(** Two ways of cutting one text: one head is a head of the other. *)
Lemma sapp_eq_app (a b c d : string) :
  a ++ b = c ++ d ->
  (exists t, c = a ++ t /\ b = t ++ d) \/ (exists t, a = c ++ t /\ d = t ++ b).
Proof.
  revert c. induction a as [|x a IH]; intros c H.
  - left. exists c. now split.
  - destruct c as [|y c].
    + right. exists (String x a). now split.
    + simpl in H. injection H as -> H.
      destruct (IH c H) as [(t & -> & ->)|(t & -> & ->)].
      * left. now exists t.
      * right. now exists t.
Qed.

Lemma sapp_eq_app_le (a b c d : string) :
  a ++ b = c ++ d -> (String.length a <= String.length c)%nat ->
  exists t, c = a ++ t /\ b = t ++ d.
Proof.
  intros H L. destruct (sapp_eq_app a b c d H) as [?|(t & -> & ->)]; [assumption|].
  rewrite slength_app in L. destruct t; [|simpl in L; lia].
  exists "". now rewrite !sapp_nil_r.
Qed.

(** The first occurrence of a character is the same however the text is
    cut. *)
Lemma first_occurrence a (x y r1 r2 : string) :
  x ++ String a r1 = y ++ String a r2 -> occurs a x = false ->
  (String.length x <= String.length y)%nat.
Proof.
  revert y. induction x as [|b x IH]; intros y H Hx; simpl; [lia|].
  simpl in Hx. apply orb_false_elim in Hx as [Hb Hx].
  destruct y as [|c y]; simpl in H.
  - injection H as -> _. now rewrite Ascii.eqb_refl in Hb.
  - injection H as _ H. simpl. specialize (IH y H Hx). lia.
Qed.

Lemma occurs_allows P a s : all_chars P s = true -> P a = false -> occurs a s = false.
Proof.
  induction s as [|b s IH]; simpl; intros H Ha; [reflexivity|].
  apply andb_prop in H as [Hb H]. rewrite (IH H Ha), orb_false_r.
  destruct (Ascii.eqb_spec b a); [congruence|reflexivity].
Qed.

Lemma all_chars_occurs s : all_chars (fun a => occurs a s) s = true.
Proof.
  assert (G : forall t, (forall a, occurs a t = true -> occurs a s = true) ->
                        all_chars (fun a => occurs a s) t = true).
  { induction t as [|b t IH]; simpl; intros H; [reflexivity|].
    rewrite (H b) by (now rewrite Ascii.eqb_refl). apply IH.
    intros a Ha. apply H. now rewrite Ha, orb_true_r. }
  now apply G.
Qed.

Lemma all_chars_weaken (P Q : ascii -> bool) s :
  (forall a, P a = true -> Q a = true) ->
  all_chars P s = true -> all_chars Q s = true.
Proof.
  intros H. induction s as [|b s IH]; simpl; [reflexivity|].
  intros E. apply andb_prop in E as [E1 E2]. now rewrite (H b E1), IH.
Qed.

(** ** Group text *)

Lemma eats_nil g : eats "" g = g.
Proof. destruct g; simpl; [|reflexivity]. now rewrite sapp_nil_r. Qed.

Lemma eats_cons a x g : eats (String a x) g = eats x (eat a g).
Proof. destruct g; simpl; [|reflexivity]. now rewrite <- sapp_assoc. Qed.

Lemma eats_app x y g : eats (x ++ y) g = eats y (eats x g).
Proof. destruct g; simpl; [|reflexivity]. now rewrite sapp_assoc. Qed.

(** ** The matcher, token by token *)

Section Tokens.
Context {R : Type} (k : string -> grp -> option R).

Lemma lit_app l s g : lit k l (l ++ s) g = k s (eats l g).
Proof.
  revert g. induction l as [|x l IH]; intros g; simpl.
  - now rewrite eats_nil.
  - now rewrite Ascii.eqb_refl, IH, eats_cons.
Qed.

Lemma lit_some l s g r :
  lit k l s g = Some r -> exists s', s = l ++ s' /\ k s' (eats l g) = Some r.
Proof.
  revert s g. induction l as [|x l IH]; intros s g H; simpl in H.
  - exists s. now rewrite eats_nil.
  - destruct s as [|a s]; [discriminate|].
    destruct (Ascii.eqb_spec a x) as [->|]; [|discriminate].
    destruct (IH _ _ H) as (s' & -> & E). exists s'.
    now rewrite eats_cons.
Qed.

Lemma count_app c x s g :
  all_chars (in_class c) x = true ->
  count k c (String.length x) (x ++ s) g = k s (eats x g).
Proof.
  revert g. induction x as [|a x IH]; intros g H; simpl.
  - now rewrite eats_nil.
  - simpl in H. apply andb_prop in H as [Ha H].
    now rewrite Ha, IH, eats_cons.
Qed.

Lemma count_some c n s g r :
  count k c n s g = Some r ->
  exists x s', s = x ++ s' /\ all_chars (in_class c) x = true
               /\ String.length x = n /\ k s' (eats x g) = Some r.
Proof.
  revert s g. induction n as [|n IH]; intros s g H; simpl in H.
  - exists "", s. now rewrite eats_nil.
  - destruct s as [|a s]; [discriminate|].
    destruct (in_class c a) eqn:Ha; [|discriminate].
    destruct (IH _ _ H) as (x & s' & -> & Hx & Hn & E).
    exists (String a x), s'. simpl. rewrite Ha, Hx, Hn, eats_cons.
    now repeat split.
Qed.

Lemma star_some c gr s g r :
  star k c gr s g = Some r ->
  exists x s', s = x ++ s' /\ all_chars (in_class c) x = true
               /\ k s' (eats x g) = Some r.
Proof.
  destruct gr; unfold star.
  - revert g. induction s as [|a s IH]; intros g H; simpl in H.
    + exists "", "". now rewrite eats_nil.
    + destruct (in_class c a) eqn:Ha.
      * destruct (star_greedy k c s (eat a g)) as [r'|] eqn:E.
        -- injection H as ->.
           destruct (IH _ E) as (x & s' & -> & Hx & E').
           exists (String a x), s'. simpl. now rewrite Ha, Hx, eats_cons.
        -- exists "", (String a s). now rewrite eats_nil.
      * exists "", (String a s). now rewrite eats_nil.
  - revert g. induction s as [|a s IH]; intros g H; simpl in H.
    + destruct (k "" g) eqn:E; [|discriminate]. injection H as ->.
      exists "", "". now rewrite eats_nil.
    + destruct (k (String a s) g) as [r'|] eqn:E.
      * injection H as ->. exists "", (String a s). now rewrite eats_nil.
      * destruct (in_class c a) eqn:Ha; [|discriminate].
        destruct (IH _ H) as (x & s' & -> & Hx & E').
        exists (String a x), s'. simpl. now rewrite Ha, Hx, eats_cons.
Qed.

(** If the continuation succeeds after some text of the class, the star
    succeeds (possibly with another result). *)
Lemma star_none c gr x s g :
  all_chars (in_class c) x = true ->
  star k c gr (x ++ s) g = None -> k s (eats x g) = None.
Proof.
  destruct gr; unfold star.
  - revert g. induction x as [|a x IH]; intros g Hx H; simpl in *.
    + rewrite eats_nil. destruct s as [|b s]; simpl in H; [assumption|].
      destruct (in_class c b); [|assumption].
      destruct (star_greedy k c s (eat b g)); [discriminate|assumption].
    + apply andb_prop in Hx as [Ha Hx]. rewrite Ha in H.
      rewrite eats_cons. apply IH; [assumption|].
      destruct (star_greedy k c (x ++ s) (eat a g)); [discriminate|reflexivity].
  - revert g. induction x as [|a x IH]; intros g Hx H; simpl in *.
    + rewrite eats_nil. destruct s as [|b s]; simpl in H.
      * destruct (k "" g); [discriminate|reflexivity].
      * destruct (k (String b s) g); [discriminate|reflexivity].
    + apply andb_prop in Hx as [Ha Hx]. rewrite Ha in H.
      rewrite eats_cons. apply IH; [assumption|].
      destruct (k (String a (x ++ s)) g); [discriminate|assumption].
Qed.
End Tokens.


(** ** The matcher and the declarative reading *)

Lemma rmatch_sound p : forall caps s g r,
  rmatch p caps s g = Some r ->
  exists w e, s = w ++ e /\ Run p caps g w r.
Proof.
  induction p as [|t p IH]; intros caps s g r H.
  - injection H as <-. exists "", s. split; [reflexivity|constructor].
  - destruct t as [l|c n|c gr|c gr| |]; cbn [rmatch] in H.
    + destruct (lit_some _ _ _ _ _ H) as (s' & -> & E).
      destruct (IH _ _ _ _ E) as (w & e & -> & HR).
      exists (l ++ w), e. rewrite sapp_assoc. split; [reflexivity|].
      now constructor.
    + destruct (count_some _ _ _ _ _ _ H) as (x & s' & -> & Hx & Hn & E).
      destruct (IH _ _ _ _ E) as (w & e & -> & HR).
      exists (x ++ w), e. rewrite sapp_assoc. split; [reflexivity|].
      now constructor.
    + destruct (star_some _ _ _ _ _ _ H) as (x & s' & -> & Hx & E).
      destruct (IH _ _ _ _ E) as (w & e & -> & HR).
      exists (x ++ w), e. rewrite sapp_assoc. split; [reflexivity|].
      now constructor.
    + destruct (count_some _ _ _ _ _ _ H) as (x1 & s1 & -> & Hx1 & Hn & E1).
      destruct (star_some _ _ _ _ _ _ E1) as (x & s' & -> & Hx & E).
      destruct (IH _ _ _ _ E) as (w & e & -> & HR).
      exists ((x1 ++ x) ++ w), e. rewrite !sapp_assoc. split; [reflexivity|].
      constructor.
      * now rewrite all_chars_app, Hx1, Hx.
      * destruct x1; [discriminate Hn|discriminate].
      * now rewrite eats_app.
    + destruct (IH _ _ _ _ H) as (w & e & -> & HR).
      exists w, e. split; [reflexivity|]. now constructor.
    + destruct (IH _ _ _ _ H) as (w & e & -> & HR).
      exists w, e. split; [reflexivity|]. now constructor.
Qed.

Lemma Run_Lang p caps g w r : Run p caps g w r -> Lang p w.
Proof. induction 1; now constructor. Qed.

Lemma rmatch_Pre p caps s g r : rmatch p caps s g = Some r -> Pre p s.
Proof.
  intros H. destruct (rmatch_sound _ _ _ _ _ H) as (w & e & -> & HR).
  exists w, e. split; [reflexivity|]. eapply Run_Lang; eassumption.
Qed.

Lemma rmatch_complete p w :
  Lang p w -> forall caps g e, rmatch p caps (w ++ e) g <> None.
Proof.
  induction 1 as [|l p w _ IH|c n p x w Hx Hn _ IH|c gr p x w Hx _ IH
                  |c gr p x w Hx Hne _ IH|p w _ IH|p w _ IH];
    intros caps g e; cbn [rmatch].
  - discriminate.
  - rewrite <- sapp_assoc, lit_app. apply IH.
  - subst n. rewrite <- sapp_assoc, count_app by assumption. apply IH.
  - rewrite <- sapp_assoc. intros E.
    apply (star_none _ _ _ _ _ _ Hx) in E. revert E. apply IH.
  - destruct x as [|a x]; [congruence|].
    simpl in Hx. apply andb_prop in Hx as [Ha Hx].
    rewrite <- sapp_assoc. cbn [append count]. rewrite Ha. intros E.
    apply (star_none _ _ _ _ _ _ Hx) in E. revert E. apply IH.
  - apply IH.
  - apply IH.
Qed.

Lemma Pre_rmatch p s caps g : Pre p s -> rmatch p caps s g <> None.
Proof. intros (w & e & -> & H). now apply rmatch_complete. Qed.

Lemma Lang_app p q a b : Lang p a -> Lang q b -> Lang (p ++ q) (a ++ b).
Proof.
  intros Ha Hb. induction Ha; cbn [app]; rewrite <- ?sapp_assoc;
    try (now constructor). assumption.
Qed.

Lemma Lang_app_inv p q w :
  Lang (p ++ q) w -> exists a b, w = a ++ b /\ Lang p a /\ Lang q b.
Proof.
  revert w. induction p as [|t p IH]; intros w H; cbn [app] in H.
  - exists "", w. repeat split; [constructor|assumption].
  - inversion H; subst;
      match goal with
      | H' : Lang (p ++ q) _ |- _ =>
          destruct (IH _ H') as (a & b & -> & Ha & Hb)
      end.
    + exists (l ++ a), b. rewrite sapp_assoc. repeat split; [|assumption].
      now constructor.
    + exists (x ++ a), b. rewrite sapp_assoc. repeat split; [|assumption].
      now constructor.
    + exists (x ++ a), b. rewrite sapp_assoc. repeat split; [|assumption].
      now constructor.
    + exists (x ++ a), b. rewrite sapp_assoc. repeat split; [|assumption].
      now constructor.
    + exists a, b. repeat split; [|assumption]. now constructor.
    + exists a, b. repeat split; [|assumption]. now constructor.
Qed.

(** Every character of a match is one some token can consume. *)
Lemma Lang_allowed p w : Lang p w -> all_chars (allowed p) w = true.
Proof.
  induction 1 as [|l p w _ IH|c n p x w Hx Hn _ IH|c gr p x w Hx _ IH
                  |c gr p x w Hx Hne _ IH|p w _ IH|p w _ IH];
    unfold allowed in *; cbn [existsb tok_allows]; try assumption;
    try reflexivity; rewrite ?all_chars_app.
  - apply andb_true_intro; split.
    + apply all_chars_weaken with (P := fun a => occurs a l);
        [|apply all_chars_occurs].
      intros a ->. reflexivity.
    + revert IH. apply all_chars_weaken. intros a ->. apply orb_true_r.
  - apply andb_true_intro; split.
    + revert Hx. apply all_chars_weaken. now intros a ->.
    + revert IH. apply all_chars_weaken. intros a ->. apply orb_true_r.
  - apply andb_true_intro; split.
    + revert Hx. apply all_chars_weaken. now intros a ->.
    + revert IH. apply all_chars_weaken. intros a ->. apply orb_true_r.
  - apply andb_true_intro; split.
    + revert Hx. apply all_chars_weaken. now intros a ->.
    + revert IH. apply all_chars_weaken. intros a ->. apply orb_true_r.
Qed.


(** ** Inversion of the declarative reading *)

Lemma Lang_lit l p w : Lang (TLit l :: p) w -> exists w', w = l ++ w' /\ Lang p w'.
Proof. inversion 1; subst. eauto. Qed.

Lemma Lang_star c gr p w :
  Lang (TStar c gr :: p) w ->
  exists x w', w = x ++ w' /\ all_chars (in_class c) x = true /\ Lang p w'.
Proof. inversion 1; subst. eauto. Qed.

Lemma Lang_plus c gr p w :
  Lang (TPlus c gr :: p) w ->
  exists x w', w = x ++ w' /\ all_chars (in_class c) x = true
               /\ x <> "" /\ Lang p w'.
Proof. inversion 1; subst. eauto 6. Qed.

Lemma Lang_open p w : Lang (TOpen :: p) w -> Lang p w.
Proof. now inversion 1. Qed.

Lemma Lang_close p w : Lang (TClose :: p) w -> Lang p w.
Proof. now inversion 1. Qed.

(** ** Appending text: token by token *)

Lemma lit_stable {R} (k : string -> grp -> option R) l :
  KStable k -> KStable (lit k l).
Proof.
  intros Hk s g r post H.
  destruct (lit_some _ _ _ _ _ H) as (s' & -> & E).
  rewrite <- sapp_assoc, lit_app. now apply Hk.
Qed.

Lemma count_stable {R} (k : string -> grp -> option R) c n :
  KStable k -> KStable (count k c n).
Proof.
  intros Hk s g r post H.
  destruct (count_some _ _ _ _ _ _ H) as (x & s' & -> & Hx & <- & E).
  rewrite <- sapp_assoc, count_app by assumption. now apply Hk.
Qed.

Lemma greedy_stable {R} (k : string -> grp -> option R) c :
  (forall a s g, in_class c a = true -> k (String a s) g = None) ->
  (forall g, k "" g = None) ->
  KStable k -> KStable (star_greedy k c).
Proof.
  intros Hrej Hnil Hk s. induction s as [|a s IH]; intros g r post H.
  - simpl in H. now rewrite Hnil in H.
  - cbn [star_greedy append] in *. destruct (in_class c a) eqn:Ha.
    + destruct (star_greedy k c s (eat a g)) as [r'|] eqn:E.
      * injection H as ->. now rewrite (IH _ _ post E).
      * now rewrite Hrej in H.
    + now apply (Hk (String a s)).
Qed.

Lemma lazy_stable p c :
  Stable p -> Firm (in_class c) p ->
  forall caps, KStable (star_lazy (rmatch p caps) c).
Proof.
  intros Hp Hf caps s. induction s as [|a s IH]; intros g r post H.
  - simpl in H. destruct (rmatch p caps "" g) as [r'|] eqn:E; [|discriminate].
    injection H as ->. apply (Hp _ _ _ _ post) in E. simpl in E.
    destruct post; simpl; now rewrite E.
  - cbn [star_lazy append] in *.
    destruct (rmatch p caps (String a s) g) as [r'|] eqn:E.
    + injection H as ->. apply (Hp _ _ _ _ post) in E. simpl in E.
      now rewrite E.
    + destruct (in_class c a) eqn:Ha; [|discriminate].
      assert (rmatch p caps (String a (s ++ post)) g = None) as ->.
      { destruct (rmatch p caps (String a (s ++ post)) g) as [r'|] eqn:E';
          [exfalso|reflexivity].
        destruct (star_some _ _ false _ _ _ H) as (x & y & -> & Hx & Ey).
        apply (Pre_rmatch p (String a (x ++ y)) caps g); [|assumption].
        apply (Hf (String a x) y post).
        - discriminate.
        - simpl. now rewrite Ha, Hx.
        - eapply rmatch_Pre; eassumption.
        - simpl. eapply rmatch_Pre; eassumption. }
      now apply IH.
Qed.

Lemma stable_nil : Stable [].
Proof. intros caps s g r post H. exact H. Qed.

Lemma stable_lit l p : Stable p -> Stable (TLit l :: p).
Proof.
  intros H caps. change (KStable (lit (rmatch p caps) l)).
  apply lit_stable. exact (H caps).
Qed.

Lemma stable_count c n p : Stable p -> Stable (TCount c n :: p).
Proof.
  intros H caps. change (KStable (count (rmatch p caps) c n)).
  apply count_stable. exact (H caps).
Qed.

Lemma stable_open p : Stable p -> Stable (TOpen :: p).
Proof. intros H caps s g r post. apply H. Qed.

Lemma stable_close p : Stable p -> Stable (TClose :: p).
Proof. intros H caps s g r post. apply H. Qed.

Lemma stable_greedy_plus c p :
  Rejects c p -> Stable p -> Stable (TPlus c true :: p).
Proof.
  intros [Hrej Hnil] H caps.
  change (KStable (count (star_greedy (rmatch p caps) c) c 1)).
  apply count_stable.
  apply greedy_stable;
    [intros a s g; apply Hrej|apply Hnil|exact (H caps)].
Qed.

Lemma stable_lazy_star c p :
  Firm (in_class c) p -> Stable p -> Stable (TStar c false :: p).
Proof.
  intros Hf H caps. change (KStable (star_lazy (rmatch p caps) c)).
  now apply lazy_stable.
Qed.

Lemma stable_lazy_plus c p :
  Firm (in_class c) p -> Stable p -> Stable (TPlus c false :: p).
Proof.
  intros Hf H caps.
  change (KStable (count (star_lazy (rmatch p caps) c) c 1)).
  apply count_stable. now apply lazy_stable.
Qed.

(** A literal that starts outside the class stops a greedy run. *)
Lemma rejects_close_lit c x l p :
  in_class c x = false -> Rejects c (TClose :: TLit (String x l) :: p).
Proof.
  intros Hx. split.
  - intros caps g a s Ha. cbn [rmatch lit].
    destruct (Ascii.eqb_spec a x) as [->|]; [congruence|reflexivity].
  - reflexivity.
Qed.


(** ** When a failed attempt stays failed *)

Lemma dot_of_allowed p s :
  allowed p "010" = false -> all_chars (allowed p) s = true ->
  all_chars (in_class CDot) s = true.
Proof.
  intros Hn. apply all_chars_weaken. intros a Ha. cbn [in_class].
  destruct (Ascii.eqb_spec a "010") as [->|]; [congruence|reflexivity].
Qed.

(** The separator is followed by a lazy [.*?]: what was skipped can be
    absorbed by that group instead. *)
Lemma firm_absorb l gr q :
  all_chars (in_class CDot) l = true ->
  Firm (in_class CDot) (TClose :: TLit l :: TOpen :: TStar CDot gr :: q).
Proof.
  intros Hl z y post _ Hz (w & e & -> & Hw) (w1 & e1 & E1 & Hw1).
  apply Lang_close, Lang_lit in Hw as (w' & -> & Hw).
  apply Lang_open, Lang_star in Hw as (x & w'' & -> & Hx & Hw).
  apply Lang_close, Lang_lit in Hw1 as (w1' & -> & _).
  rewrite <- !sapp_assoc in E1.
  rewrite (sapp_assoc z l) in E1. symmetry in E1.
  destruct (sapp_eq_app_le _ _ _ _ E1) as (t & Et & _).
  { rewrite slength_app. lia. }
  assert (Ht : all_chars (in_class CDot) t = true).
  { assert (A : all_chars (in_class CDot) (z ++ l) = true)
      by (now rewrite all_chars_app, Hz, Hl).
    rewrite Et, all_chars_app in A. now apply andb_prop in A as [_ A]. }
  exists (l ++ (t ++ x) ++ w''), e. split.
  - rewrite <- !sapp_assoc. rewrite (sapp_assoc z l), Et.
    now rewrite <- !sapp_assoc.
  - constructor. constructor. constructor. constructor; [|assumption].
    now rewrite all_chars_app, Ht, Hx.
Qed.

(** The separator starts with a character that nothing after it can
    consume: an attempt that runs past the next separator is impossible. *)
Lemma firm_marker P c0 l q :
  allowed (TLit l :: q) c0 = false ->
  Firm P (TClose :: TLit (String c0 l) :: q).
Proof.
  intros Hc z y post Hz _ (w & e & -> & Hw) (w1 & e1 & E1 & Hw1).
  apply Lang_close, Lang_lit in Hw as (w' & -> & Hw).
  destruct (sapp_eq_app _ _ _ _ E1) as [(t & -> & _)|(t & Et & _)].
  - exfalso. apply Lang_close in Hw1.
    apply Lang_lit in Hw1 as (w1' & E & Hw1).
    destruct z as [|z0 z]; [congruence|].
    cbn [append] in E. injection E as -> E.
    rewrite <- !sapp_assoc in E. cbn [append] in E.
    assert (A : all_chars (allowed (TLit l :: q)) (l ++ w1') = true).
    { apply Lang_allowed. now constructor. }
    rewrite <- E, all_chars_app in A. apply andb_prop in A as [_ A].
    cbn [append all_chars] in A. apply andb_prop in A as [A _].
    congruence.
  - exists w1, t. now split.
Qed.


Lemma absorbs_star gr q : Absorbs (TOpen :: TStar CDot gr :: q).
Proof.
  intros t w Ht Hw. apply Lang_open, Lang_star in Hw as (x & w' & -> & Hx & Hw).
  rewrite sapp_assoc. constructor. constructor; [|assumption].
  now rewrite all_chars_app, Ht, Hx.
Qed.

Lemma absorbs_plus gr q : Absorbs (TOpen :: TPlus CDot gr :: q).
Proof.
  intros t w Ht Hw.
  apply Lang_open, Lang_plus in Hw as (x & w' & -> & Hx & Hne & Hw).
  rewrite sapp_assoc. constructor. constructor; [| |assumption].
  - now rewrite all_chars_app, Ht, Hx.
  - destruct t; [assumption|discriminate].
Qed.

Lemma occurs_app a x y : occurs a (x ++ y) = occurs a x || occurs a y.
Proof. induction x; simpl; [reflexivity|]. now rewrite IHx, orb_assoc. Qed.

(** An attempt from an earlier start: its head [A lg] cannot end after
    the later match's head does (the marker [c] of [lg] comes first in both),
    so the group after [lg] can absorb the difference. *)
Lemma firm_start P A u c v r :
  allowed A c = false -> occurs c u = false ->
  allowed (A ++ TLit (u ++ String c v) :: r) "010" = false ->
  Absorbs r ->
  Firm P (A ++ TLit (u ++ String c v) :: r).
Proof.
  intros HA Hu Hnl Hr z y post _ _ (w & e & -> & Hw) (w1 & e1 & E1 & Hw1).
  destruct (sapp_eq_app _ _ _ _ E1) as [(t & Et & _)|(t & Et & _)];
    [|exists w1, t; now split].
  pose proof (dot_of_allowed _ _ Hnl (Lang_allowed _ _ Hw1)) as Hdot.
  apply Lang_app_inv in Hw as (a2 & b2 & -> & Ha2 & Hb2).
  apply Lang_lit in Hb2 as (w2 & -> & Hw2).
  apply Lang_app_inv in Hw1 as (a1 & b1 & -> & Ha1 & Hb1).
  apply Lang_lit in Hb1 as (w1' & -> & Hw1').
  set (lg := u ++ String c v) in *.
  rewrite <- !sapp_assoc in Et.
  (* the marker comes first in both cuttings *)
  assert (Hlen : (String.length a1 <= String.length (z ++ a2))%nat).
  { assert (E : (a1 ++ u) ++ String c (v ++ w1')
                = ((z ++ a2) ++ u) ++ String c (v ++ w2 ++ e ++ t)).
    { unfold lg in Et. rewrite <- !sapp_assoc in Et. cbn [append] in Et.
      rewrite <- !sapp_assoc. exact Et. }
    apply first_occurrence in E.
    - rewrite !slength_app in E. rewrite slength_app. lia.
    - rewrite occurs_app, Hu, orb_false_r.
      apply (occurs_allows (allowed A)); [now apply Lang_allowed|assumption]. }
  rewrite (sapp_assoc z a2) in Et.
  destruct (sapp_eq_app_le _ _ _ _ Et Hlen) as (t1 & E1' & E2').
  rewrite (sapp_assoc t1 lg) in E2'.
  destruct (sapp_eq_app_le _ _ _ _ E2') as (t2 & E3 & _).
  { rewrite slength_app. lia. }
  assert (Ht2 : all_chars (in_class CDot) t2 = true).
  { rewrite Et in Hdot. rewrite (sapp_assoc (z ++ a2) lg) in Hdot.
    rewrite E1', <- (sapp_assoc a1 t1 lg), E3 in Hdot.
    rewrite !all_chars_app in Hdot.
    rewrite !andb_true_iff in Hdot. tauto. }
  exists (a1 ++ lg ++ t2 ++ w2), e. split.
  - rewrite <- !sapp_assoc. rewrite (sapp_assoc z a2), E1'.
    rewrite <- !sapp_assoc. rewrite (sapp_assoc t1 lg), E3.
    now rewrite <- !sapp_assoc.
  - apply Lang_app; [assumption|]. constructor. now apply Hr.
Qed.

(** ** [re.search] *)

Lemma search_some p s r :
  search p s = Some r ->
  exists z y, s = z ++ y /\ rmatch p [] y None = Some r.
Proof.
  induction s as [|a s IH]; cbn [search]; intros H.
  - destruct (rmatch p [] "" None) eqn:E; [|discriminate].
    injection H as ->. now exists "", "".
  - destruct (rmatch p [] (String a s) None) eqn:E.
    + injection H as ->. now exists "", (String a s).
    + destruct (IH H) as (z & y & -> & Hy). now exists (String a z), y.
Qed.

(** Appending text never changes the first match, when single attempts are
    stable and a failed attempt from an earlier start stays failed. *)
Lemma search_app p s r post :
  Stable p -> Firm (fun _ => true) p ->
  search p s = Some r -> search p (s ++ post) = Some r.
Proof.
  intros Hp Hf. induction s as [|a s IH]; cbn [search append]; intros H.
  - destruct (rmatch p [] "" None) eqn:E; [|discriminate].
    injection H as ->. apply (Hp _ _ _ _ post) in E. cbn [append] in E.
    destruct post; cbn [search]; now rewrite E.
  - destruct (rmatch p [] (String a s) None) eqn:E.
    + injection H as ->. apply (Hp _ _ _ _ post) in E. cbn [append] in E.
      now rewrite E.
    + assert (rmatch p [] (String a (s ++ post)) None = None) as ->.
      { destruct (rmatch p [] (String a (s ++ post)) None) eqn:E';
          [exfalso|reflexivity].
        destruct (search_some _ _ _ H) as (z & y & -> & Ey).
        apply (Pre_rmatch p (String a (z ++ y)) [] None); [|assumption].
        apply (Hf (String a z) y post).
        - discriminate.
        - clear. induction z; simpl; auto.
        - eapply rmatch_Pre; eassumption.
        - cbn [append]. eapply rmatch_Pre; eassumption. }
      now apply IH.
Qed.

(** Text that cannot start a match is passed over. *)
Lemma search_skip p pre s :
  (forall a t, occurs a pre = true -> rmatch p [] (String a t) None = None) ->
  search p (pre ++ s) = search p s.
Proof.
  induction pre as [|b pre IH]; intros H; [reflexivity|].
  cbn [append search]. rewrite H by (cbn; now rewrite Ascii.eqb_refl).
  apply IH. intros a t Ha. apply H. cbn. now rewrite Ha, orb_true_r.
Qed.

End ReFacts.

(** * The two patterns of the serializer *)

Module PatternFacts.
Import Re ReSpec ReFacts.
Local Open Scope string_scope.

Ltac stable_step :=
  first
    [ apply stable_nil
    | apply stable_open
    | apply stable_close
    | apply stable_lit
    | apply stable_count
    | apply stable_greedy_plus; [apply rejects_close_lit; reflexivity|]
    | apply stable_lazy_star;
        [first [apply firm_absorb; reflexivity | apply firm_marker; reflexivity]|]
    | apply stable_lazy_plus;
        [first [apply firm_absorb; reflexivity | apply firm_marker; reflexivity]|] ].

Lemma movie_watch_stable : Stable movie_watch_pattern.
Proof.
  unfold movie_watch_pattern, timestamp_toks. cbn [app].
  repeat stable_step.
Qed.

Lemma recommendation_stable : Stable recommendation_pattern.
Proof.
  unfold recommendation_pattern, timestamp_toks. cbn [app].
  repeat stable_step.
Qed.

Lemma movie_watch_firm : Firm (fun _ => true) movie_watch_pattern.
Proof.
  change movie_watch_pattern
    with ((timestamp_toks
             ++ [TClose; TLit ","; TOpen; TPlus CDigit true; TClose])
            ++ TLit ("," ++ String "G" "ET /data/m/")%string
            :: TOpen :: TPlus CDot false
            :: [TClose; TLit "/"; TOpen; TPlus CDigit true; TClose; TLit ".mpg"])%list.
  apply firm_start; try reflexivity. apply absorbs_plus.
Qed.

Lemma recommendation_firm : Firm (fun _ => true) recommendation_pattern.
Proof.
  change recommendation_pattern
    with ((timestamp_toks
             ++ [TLit "."; TPlus CDigit true; TClose; TLit ","; TOpen;
                 TPlus CDigit true; TClose])
            ++ TLit (",re" ++ String "c" "ommendation request ")%string
            :: TOpen :: TStar CDot false
            :: [TClose; TLit ", status "; TOpen; TStar CDot false; TClose;
                TLit ", result: "; TOpen; TStar CDot false; TClose;
                TLit ", "; TOpen; TPlus CDigit true; TClose; TLit " ms"])%list.
  apply firm_start; try reflexivity. apply absorbs_star.
Qed.

(** A match of either pattern starts with a digit. *)
Lemma no_match_at_non_digit p a t :
  (p = movie_watch_pattern \/ p = recommendation_pattern) ->
  Py.is_digit a = false -> rmatch p [] (String a t) None = None.
Proof.
  intros [-> | ->] Ha; cbn [movie_watch_pattern recommendation_pattern
    timestamp_toks app rmatch count in_class]; now rewrite Ha.
Qed.

Lemma occurs_all_chars P a s :
  all_chars P s = true -> occurs a s = true -> P a = true.
Proof.
  induction s as [|b s IH]; simpl; [discriminate|].
  intros H Ho. apply andb_prop in H as [Hb H].
  destruct (Ascii.eqb_spec b a) as [->|]; [assumption|].
  now apply IH.
Qed.

(** Appended text, and prepended text without digits, leave the first match
    as it is. *)
Lemma search_surrounded p pre s post r :
  (p = movie_watch_pattern \/ p = recommendation_pattern) ->
  all_chars (fun a => negb (Py.is_digit a)) pre = true ->
  search p s = Some r -> search p (pre ++ s ++ post) = Some r.
Proof.
  intros Hp Hpre H. rewrite search_skip.
  - destruct Hp as [-> | ->].
    + now apply search_app;
        [apply movie_watch_stable|apply movie_watch_firm|].
    + now apply search_app;
        [apply recommendation_stable|apply recommendation_firm|].
  - intros a t Ha. apply no_match_at_non_digit; [assumption|].
    apply (occurs_all_chars _ _ _ Hpre) in Ha.
    now destruct (Py.is_digit a).
Qed.


(** ** What the groups of a match hold *)

Lemma Run_lit l p caps g w r :
  Run (TLit l :: p) caps g w r ->
  exists w', w = l ++ w' /\ Run p caps (eats l g) w' r.
Proof. inversion 1; subst. eauto. Qed.

Lemma Run_count c n p caps g w r :
  Run (TCount c n :: p) caps g w r ->
  exists x w', w = x ++ w' /\ all_chars (in_class c) x = true
               /\ String.length x = n /\ Run p caps (eats x g) w' r.
Proof. inversion 1; subst. eauto 7. Qed.

Lemma Run_star c gr p caps g w r :
  Run (TStar c gr :: p) caps g w r ->
  exists x w', w = x ++ w' /\ all_chars (in_class c) x = true
               /\ Run p caps (eats x g) w' r.
Proof. inversion 1; subst. eauto 6. Qed.

Lemma Run_plus c gr p caps g w r :
  Run (TPlus c gr :: p) caps g w r ->
  exists x w', w = x ++ w' /\ all_chars (in_class c) x = true
               /\ x <> "" /\ Run p caps (eats x g) w' r.
Proof. inversion 1; subst. eauto 7. Qed.

Lemma Run_open p caps g w r :
  Run (TOpen :: p) caps g w r -> Run p caps (Some "") w r.
Proof. now inversion 1. Qed.

Lemma Run_close p caps g w r :
  Run (TClose :: p) caps g w r -> Run p (close g caps) None w r.
Proof. now inversion 1. Qed.

Lemma Run_nil caps g w r : Run [] caps g w r -> r = rev caps.
Proof. now inversion 1. Qed.

Ltac run_inv H :=
  repeat first
    [ apply Run_open in H
    | apply Run_close in H
    | let w := fresh "w" in
      apply Run_lit in H as (w & -> & H)
    | let x := fresh "x" in let w := fresh "w" in
      let Hx := fresh "Hx" in
      apply Run_count in H as (x & w & -> & Hx & _ & H)
    | let x := fresh "x" in let w := fresh "w" in
      let Hx := fresh "Hx" in
      apply Run_star in H as (x & w & -> & Hx & H)
    | let x := fresh "x" in let w := fresh "w" in
      let Hx := fresh "Hx" in let Hn := fresh "Hn" in
      apply Run_plus in H as (x & w & -> & Hx & Hn & H) ];
  apply Run_nil in H.

(** The groups of a movie-watch match: four, the second and the fourth
    non-empty runs of digits, the third non-empty and on one line. *)
Lemma movie_watch_groups entry gs :
  search movie_watch_pattern entry = Some gs ->
  exists t u m mn,
    gs = [t; u; m; mn]
    /\ all_chars Py.is_digit u = true /\ u <> ""
    /\ all_chars (in_class CDot) m = true /\ m <> ""
    /\ all_chars Py.is_digit mn = true /\ mn <> "".
Proof.
  intros H. destruct (search_some _ _ _ H) as (z & y & _ & Hy).
  destruct (rmatch_sound _ _ _ _ _ Hy) as (w & e & _ & HR).
  unfold movie_watch_pattern, timestamp_toks in HR. cbn [app] in HR.
  run_inv HR. cbn [eats close rev app append] in HR. subst gs.
  do 4 eexists. split; [reflexivity|]. now repeat split.
Qed.

(** The groups of a recommendation match: six, the second and the last
    non-empty runs of digits. *)
Lemma recommendation_groups entry gs :
  search recommendation_pattern entry = Some gs ->
  exists t u sv s res rt,
    gs = [t; u; sv; s; res; rt]
    /\ all_chars Py.is_digit u = true /\ u <> ""
    /\ all_chars Py.is_digit rt = true /\ rt <> "".
Proof.
  intros H. destruct (search_some _ _ _ H) as (z & y & _ & Hy).
  destruct (rmatch_sound _ _ _ _ _ Hy) as (w & e & _ & HR).
  unfold recommendation_pattern, timestamp_toks in HR. cbn [app] in HR.
  run_inv HR. cbn [eats close rev app append] in HR. subst gs.
  do 6 eexists. split; [reflexivity|]. now repeat split.
Qed.

(** ** [int] on a run of digits, [replace] *)

Lemma digit_not_space a : Py.is_digit a = true -> Py.is_space a = false.
Proof.
  unfold Py.is_digit, Py.is_space. cbv zeta. intros H.
  apply andb_prop in H as [H1 H2]. apply Nat.leb_le in H1, H2.
  rewrite !orb_false_iff, andb_false_iff, !Nat.eqb_neq, !Nat.leb_gt. lia.
Qed.

Lemma digit_not_sign a :
  Py.is_digit a = true ->
  Ascii.eqb a "-" = false /\ Ascii.eqb a "+" = false /\ Ascii.eqb a "_" = false.
Proof.
  intros H.
  repeat split;
    match goal with
    | |- Ascii.eqb a ?c = false =>
        destruct (Ascii.eqb_spec a c) as [->|]; [discriminate H|reflexivity]
    end.
Qed.

Lemma rstrip_digits s : all_chars Py.is_digit s = true -> Py.rstrip s = s.
Proof.
  induction s as [|a s IH]; [reflexivity|]. cbn [all_chars Py.rstrip].
  intros H. apply andb_prop in H as [Ha H]. rewrite (IH H).
  destruct s; [|reflexivity]. now rewrite (digit_not_space a Ha).
Qed.

Lemma digits_value_digits s : forall b acc,
  all_chars Py.is_digit s = true -> (s <> "" \/ b = true) ->
  Py.digits_value b acc s = Some (decimal acc s).
Proof.
  induction s as [|a s IH]; intros b acc H Hb.
  - destruct Hb as [Hb | ->]; [congruence|reflexivity].
  - cbn [all_chars] in H. apply andb_prop in H as [Ha H].
    cbn [Py.digits_value decimal]. rewrite Ha. apply IH; auto.
Qed.

Lemma digit_count_digits s :
  all_chars Py.is_digit s = true ->
  Py.digit_count s = Z.of_nat (String.length s).
Proof.
  induction s as [|a s IH]; [reflexivity|]. cbn [all_chars]. intros H.
  apply andb_prop in H as [Ha H].
  cbn [Py.digit_count String.length]. rewrite Ha, (IH H). lia.
Qed.

(** [int] on a run of digits: its value, unless the run is longer than the
    cap. *)
Lemma int_digits s :
  all_chars Py.is_digit s = true -> s <> "" ->
  Py.int s = if within_cap s then Return (decimal 0 s) else Raise ValueError.
Proof.
  intros H Hne. destruct s as [|a s]; [congruence|].
  pose proof H as H'. cbn [all_chars] in H'. apply andb_prop in H' as [Ha Hs].
  unfold Py.int, within_cap. cbn [Py.lstrip]. rewrite (digit_not_space a Ha).
  rewrite (rstrip_digits _ H). cbv zeta.
  destruct (digit_not_sign a Ha) as (-> & -> & _).
  rewrite digits_value_digits by auto.
  now rewrite (digit_count_digits _ H).
Qed.

Lemma int_digits_short s :
  all_chars Py.is_digit s = true -> s <> "" -> within_cap s = true ->
  Py.int s = Return (decimal 0 s).
Proof. intros H Hne Hc. now rewrite (int_digits s H Hne), Hc. Qed.

Lemma replace_length old new s :
  String.length (Py.replace old new s) = String.length s.
Proof. induction s; simpl; congruence. Qed.

Lemma replace_get old new s : forall i,
  String.get i (Py.replace old new s)
  = option_map (fun a => if Ascii.eqb a old then new else a) (String.get i s).
Proof.
  induction s as [|a s IH]; intros i; [reflexivity|].
  destruct i; simpl; [reflexivity|apply IH].
Qed.

End PatternFacts.

(** * Further properties of the parsers *)

Module ParserFacts.
Import Re ReSpec ReFacts PatternFacts.
Local Open Scope string_scope.

(** ** [split] on a one-character separator *)

Lemma prefix_nil s : prefix "" s = true.
Proof. now destruct s. Qed.

Lemma split1_sep c s :
  Py.split (String c "") (String c s) = "" :: Py.split (String c "") s.
Proof.
  unfold Py.split. cbn [Py.split_from prefix].
  destruct (ascii_dec c c) as [_|N]; [|congruence].
  now rewrite prefix_nil.
Qed.

Lemma split1_other c a s :
  Ascii.eqb a c = false ->
  Py.split (String c "") (String a s)
  = match Py.split (String c "") s with
    | h :: t => String a h :: t
    | [] => [String a ""]
    end.
Proof.
  intros H. unfold Py.split. cbn [Py.split_from prefix].
  destruct (ascii_dec c a) as [->|_]; [|reflexivity].
  now rewrite Ascii.eqb_refl in H.
Qed.





(** No piece holds the separator. *)
Lemma split1_pieces c s :
  Forall (fun p => occurs c p = false) (Py.split (String c "") s).
Proof.
  induction s as [|a s IH]; [now repeat constructor|].
  destruct (Ascii.eqb_spec a c) as [->|Hne].
  - rewrite split1_sep. now constructor.
  - apply Ascii.eqb_neq in Hne. rewrite (split1_other _ _ _ Hne).
    destruct (Py.split (String c "") s) as [|h t].
    + repeat constructor. cbn. now rewrite Hne.
    + inversion IH; subst. constructor; [|assumption].
      cbn. now rewrite Hne.
Qed.

(** Pieces are made of characters of the text. *)
Lemma split1_chars c P s :
  all_chars P s = true ->
  Forall (fun p => all_chars P p = true) (Py.split (String c "") s).
Proof.
  induction s as [|a s IH]; [now repeat constructor|].
  cbn [all_chars]. intros H. apply andb_prop in H as [Ha Hs].
  specialize (IH Hs).
  destruct (Ascii.eqb_spec a c) as [->|Hne].
  - rewrite split1_sep. now constructor.
  - apply Ascii.eqb_neq in Hne. rewrite (split1_other _ _ _ Hne).
    destruct (Py.split (String c "") s) as [|h t].
    + repeat constructor. cbn. now rewrite Ha.
    + inversion IH; subst. constructor; [|assumption].
      cbn. now rewrite Ha.
Qed.

(** ** [int] *)

Lemma int_raises s e : Py.int s = Raise e -> e = ValueError.
Proof.
  unfold Py.int. cbv zeta.
  match goal with
  | |- match ?r with _ => _ end = _ -> _ => destruct r
  end; [destruct (Z.leb _ _); [discriminate|]|]; now intros [= <-].
Qed.

Lemma index_raises {A} (l : list A) i e : Py.index l i = Raise e -> e = IndexError.
Proof. unfold Py.index. destruct (nth_error l i); [discriminate|]. now intros [= <-]. Qed.

Lemma digit_val_nonneg a : Py.is_digit a = true -> 0 <= Py.digit_val a <= 9.
Proof.
  unfold Py.is_digit, Py.digit_val. cbv zeta. intros H.
  apply andb_prop in H as [H1 H2]. apply Nat.leb_le in H1, H2. lia.
Qed.

Lemma decimal_nonneg s : forall acc,
  all_chars Py.is_digit s = true -> 0 <= acc -> 0 <= decimal acc s.
Proof.
  induction s as [|a s IH]; intros acc H Hacc; [assumption|].
  cbn [all_chars] in H. apply andb_prop in H as [Ha H].
  cbn [decimal]. apply IH; [assumption|].
  pose proof (digit_val_nonneg a Ha). lia.
Qed.

(** ** [replace] *)

Lemma replace_removes old new s :
  Ascii.eqb new old = false -> occurs old (Py.replace old new s) = false.
Proof.
  intros H. induction s as [|a s IH]; [reflexivity|].
  cbn [Py.replace occurs]. rewrite IH, orb_false_r.
  destruct (Ascii.eqb_spec a old) as [->|Hne]; [assumption|].
  now apply Ascii.eqb_neq.
Qed.

Lemma replace_keeps P old new s :
  P new = true -> all_chars P s = true ->
  all_chars P (Py.replace old new s) = true.
Proof.
  intros Hn. induction s as [|a s IH]; [reflexivity|].
  cbn [Py.replace all_chars]. intros H. apply andb_prop in H as [Ha H].
  rewrite (IH H), andb_true_r. now destruct (Ascii.eqb a old).
Qed.

Lemma replace_nonempty old new s : s <> "" -> Py.replace old new s <> "".
Proof. destruct s; [congruence|discriminate]. Qed.


(** ** Running the matcher forwards on a text built from its parts *)

Lemma rmatch_lit_app l p caps s g :
  rmatch (TLit l :: p) caps (l ++ s) g = rmatch p caps s (eats l g).
Proof. apply lit_app. Qed.

Lemma rmatch_count_app c n x p caps s g :
  all_chars (in_class c) x = true -> String.length x = n ->
  rmatch (TCount c n :: p) caps (x ++ s) g = rmatch p caps s (eats x g).
Proof. intros Hx <-. now apply count_app. Qed.

Lemma star_greedy_app {R} (k : string -> grp -> option R) c x s r : forall g,
  all_chars (in_class c) x = true -> starts_in c s = false ->
  k s (eats x g) = Some r -> star_greedy k c (x ++ s) g = Some r.
Proof.
  induction x as [|a x IH]; intros g Hx Hs Hk.
  - rewrite eats_nil in Hk. cbn [append].
    destruct s as [|b s]; cbn [star_greedy]; [assumption|].
    cbn [starts_in] in Hs. now rewrite Hs.
  - cbn [all_chars] in Hx. apply andb_prop in Hx as [Ha Hx].
    cbn [append star_greedy]. rewrite Ha.
    rewrite eats_cons in Hk. now rewrite (IH _ Hx Hs Hk).
Qed.

Lemma rmatch_greedy_plus_app c x p caps s g r :
  all_chars (in_class c) x = true -> x <> "" -> starts_in c s = false ->
  rmatch p caps s (eats x g) = Some r ->
  rmatch (TPlus c true :: p) caps (x ++ s) g = Some r.
Proof.
  intros Hx Hne Hs Hk. destruct x as [|a x]; [congruence|].
  cbn [all_chars] in Hx. apply andb_prop in Hx as [Ha Hx].
  cbn [rmatch count append]. rewrite Ha. unfold star.
  rewrite eats_cons in Hk. now apply star_greedy_app.
Qed.

Lemma star_lazy_app {R} (k : string -> grp -> option R) c x s r : forall g,
  all_chars (in_class c) x = true ->
  (forall x1 x2 g', x = x1 ++ x2 -> x2 <> "" -> k (x2 ++ s) g' = None) ->
  k s (eats x g) = Some r -> star_lazy k c (x ++ s) g = Some r.
Proof.
  induction x as [|a x IH]; intros g Hx Hfail Hk.
  - rewrite eats_nil in Hk. cbn [append].
    destruct s; cbn [star_lazy]; now rewrite Hk.
  - cbn [all_chars] in Hx. apply andb_prop in Hx as [Ha Hx].
    cbn [append star_lazy].
    assert (F : k (String a x ++ s) g = None)
      by (apply (Hfail "" (String a x) g eq_refl); discriminate).
    cbn [append] in F. rewrite F, Ha. rewrite eats_cons in Hk. apply IH; [assumption| |assumption].
    intros x1 x2 g' -> Hne. now apply (Hfail (String a x1) x2).
Qed.

Lemma lazy_fails_without c0 x s :
  occurs c0 x = false ->
  forall x1 x2, x = x1 ++ x2 -> x2 <> "" ->
  forall l p caps g',
    rmatch (TClose :: TLit (String c0 l) :: p) caps (x2 ++ s) g' = None.
Proof.
  intros Hx x1 x2 -> Hne l p caps g'.
  destruct x2 as [|b x2]; [congruence|].
  rewrite occurs_app in Hx. apply orb_false_elim in Hx as [_ Hx].
  cbn [occurs] in Hx. apply orb_false_elim in Hx as [Hb _].
  cbn [rmatch lit append]. now rewrite Hb.
Qed.

Lemma rmatch_lazy_plus_app c c0 l x p caps s g r :
  all_chars (in_class c) x = true -> x <> "" -> occurs c0 x = false ->
  rmatch (TClose :: TLit (String c0 l) :: p) caps s (eats x g) = Some r ->
  rmatch (TPlus c false :: TClose :: TLit (String c0 l) :: p) caps (x ++ s) g
  = Some r.
Proof.
  intros Hx Hne Ho Hk. destruct x as [|a x]; [congruence|].
  cbn [all_chars] in Hx. apply andb_prop in Hx as [Ha Hx].
  cbn [occurs] in Ho. apply orb_false_elim in Ho as [_ Ho].
  change (count (star_lazy (rmatch (TClose :: TLit (String c0 l) :: p) caps) c)
            c 1 (String a x ++ s) g = Some r).
  cbn [count append]. rewrite Ha. rewrite eats_cons in Hk.
  apply star_lazy_app; [assumption| |assumption].
  intros x1 x2 g' E Hne2. now apply (lazy_fails_without c0 x s Ho x1 x2).
Qed.


Lemma search_here p s r : rmatch p [] s None = Some r -> search p s = Some r.
Proof. intros H. destruct s; cbn [search]; now rewrite H. Qed.

Ltac run_inv_len H :=
  repeat first
    [ apply Run_open in H
    | apply Run_close in H
    | let w := fresh "w" in
      apply Run_lit in H as (w & -> & H)
    | let x := fresh "x" in let w := fresh "w" in
      let Hx := fresh "Hx" in let Hl := fresh "Hl" in
      apply Run_count in H as (x & w & -> & Hx & Hl & H)
    | let x := fresh "x" in let w := fresh "w" in
      let Hx := fresh "Hx" in
      apply Run_star in H as (x & w & -> & Hx & H)
    | let x := fresh "x" in let w := fresh "w" in
      let Hx := fresh "Hx" in let Hn := fresh "Hn" in
      apply Run_plus in H as (x & w & -> & Hx & Hn & H) ];
  apply Run_nil in H.

Lemma rmatch_open p caps s g :
  rmatch (TOpen :: p) caps s g = rmatch p caps s (Some "").
Proof. reflexivity. Qed.

Lemma rmatch_close p caps s g :
  rmatch (TClose :: p) caps s g = rmatch p (close g caps) s None.
Proof. now destruct g. Qed.

Lemma digits_n_spec n s :
  digits_n n s = true -> all_chars (in_class CDigit) s = true /\ String.length s = n.
Proof.
  unfold digits_n. intros H. apply andb_prop in H as [H1 H2].
  apply Nat.eqb_eq in H2. now split.
Qed.

Lemma digits_spec s :
  digits s = true <-> all_chars Py.is_digit s = true /\ s <> "".
Proof.
  unfold digits. rewrite andb_true_iff, negb_true_iff.
  destruct (String.eqb_spec s ""); intuition congruence.
Qed.

(** The time-stamp tokens consume a well-formed stamp, which becomes the
    open group. *)
Lemma stamp_consumed t p caps s g :
  stamp_ok t = true ->
  rmatch (timestamp_toks ++ p)%list caps (stamp_text t ++ s) g
  = rmatch p caps s (Some (stamp_text t)).
Proof.
  unfold stamp_ok. rewrite !andb_true_iff.
  intros (((((Hy & Hm) & Hd) & Hh) & Hi) & Hs).
  apply digits_n_spec in Hy as [Hy Ly], Hm as [Hm Lm], Hd as [Hd Ld],
    Hh as [Hh Lh], Hi as [Hi Li], Hs as [Hs Ls].
  unfold timestamp_toks, stamp_text. cbn [app].
  rewrite <- !sapp_assoc. rewrite rmatch_open.
  rewrite (rmatch_count_app _ _ _ _ _ _ _ Hy Ly), rmatch_lit_app.
  rewrite (rmatch_count_app _ _ _ _ _ _ _ Hm Lm), rmatch_lit_app.
  rewrite (rmatch_count_app _ _ _ _ _ _ _ Hd Ld), rmatch_lit_app.
  rewrite (rmatch_count_app _ _ _ _ _ _ _ Hh Lh), rmatch_lit_app.
  rewrite (rmatch_count_app _ _ _ _ _ _ _ Hi Li), rmatch_lit_app.
  rewrite (rmatch_count_app _ _ _ _ _ _ _ Hs Ls).
  rewrite <- !eats_app. reflexivity.
Qed.

Lemma digits_n_intro n s :
  all_chars (in_class CDigit) s = true -> String.length s = n ->
  digits_n n s = true.
Proof.
  intros H <-. unfold digits_n.
  change (all_chars Py.is_digit s = true) in H.
  rewrite H. apply Nat.eqb_refl.
Qed.

(** The groups of a movie-watch match: a time stamp, a run of digits, a
    non-empty text on one line, a run of digits. *)
Lemma movie_watch_match entry gs :
  search movie_watch_pattern entry = Some gs ->
  exists st u m mn,
    gs = [stamp_text st; u; m; mn]
    /\ stamp_ok st = true /\ digits u = true
    /\ all_chars (in_class CDot) m = true /\ m <> ""
    /\ digits mn = true.
Proof.
  intros H. destruct (search_some _ _ _ H) as (z & y & _ & Hy).
  destruct (rmatch_sound _ _ _ _ _ Hy) as (w & e & _ & HR).
  unfold movie_watch_pattern, timestamp_toks in HR. cbn [app] in HR.
  run_inv_len HR. cbn [eats close rev app] in HR.
  change ("" ++ x) with x in HR. subst gs.
  exists {| year := x; month := x0; day := x1;
            hour := x2; mins := x3; secs := x4 |}.
  do 3 eexists. split; [|split; [|split; [|split; [|split]]]].
  - unfold stamp_text. cbn [year month day hour mins secs].
    rewrite !sapp_assoc. reflexivity.
  - unfold stamp_ok. cbn [year month day hour mins secs].
    now rewrite !digits_n_intro.
  - now apply digits_spec.
  - assumption.
  - assumption.
  - now apply digits_spec.
Qed.

(** ** Lists, separators *)

Lemma index_in {A} (l : list A) i x : Py.index l i = Return x -> In x l.
Proof.
  unfold Py.index. destruct (nth_error l i) eqn:E; [|discriminate].
  intros [= <-]. eapply nth_error_In, E.
Qed.

Lemma last_in {A} (l : list A) x : Py.last l = Return x -> In x l.
Proof.
  unfold Py.last. destruct (rev l) eqn:E; [discriminate|].
  intros [= <-]. apply in_rev. rewrite E. now left.
Qed.


Lemma free_of_app seps a b :
  free_of seps (a ++ b) = free_of seps a && free_of seps b.
Proof.
  induction seps as [|c seps IH]; [reflexivity|].
  cbn [free_of]. rewrite IH, occurs_app, negb_orb.
  repeat match goal with |- context [negb ?x] => destruct (negb x) end;
    cbn; try reflexivity; now destruct (free_of seps a), (free_of seps b).
Qed.






Lemma occurs_chars c s :
  occurs c s = false <-> all_chars (fun a => negb (Ascii.eqb a c)) s = true.
Proof.
  induction s as [|a s IH]; [easy|]. cbn [occurs all_chars].
  rewrite orb_false_iff, andb_true_iff, negb_true_iff, IH. reflexivity.
Qed.

(** A character absent from the text is absent from its pieces. *)
Lemma split1_free c c' s :
  occurs c' s = false ->
  Forall (fun p => occurs c' p = false) (Py.split (String c "") s).
Proof.
  intros H. apply occurs_chars in H.
  eapply Forall_impl; [|apply (split1_chars c _ s H)].
  intros p Hp. now apply occurs_chars.
Qed.

(** The rating parser prints nothing, and returns a record or raises one of
    two exceptions. *)
Lemma parse_rating_cases line :
  parse_rating line = ([], Raise IndexError)
  \/ parse_rating line = ([], Raise ValueError)
  \/ exists t z m r,
       parse_rating line
       = ([], Return (Some [("time", VStr t); ("userid", VInt z);
                            ("movieid", VStr m); ("rating", VStr r)])).
Proof.
  unfold parse_rating, bind, lift, ret.
  destruct (Py.index (Py.split "," line) 0) as [t|e] eqn:E0;
    [|left; now rewrite (index_raises _ _ _ E0)].
  destruct (Py.index (Py.split "," line) 1) as [p1|e] eqn:E1;
    [|left; now rewrite (index_raises _ _ _ E1)].
  destruct (Py.int p1) as [z|e] eqn:Ez;
    [|right; left; now rewrite (int_raises _ _ Ez)].
  destruct (Py.index (Py.split "," line) 2) as [p2|e] eqn:E2;
    [|left; now rewrite (index_raises _ _ _ E2)].
  destruct (Py.index (Py.split "=" p2) 0) as [m0|e] eqn:E3;
    [|left; now rewrite (index_raises _ _ _ E3)].
  destruct (last_split "/" m0) as (m & ->).
  destruct (Py.index (Py.split "=" p2) 1) as [r|e] eqn:E4;
    [|left; now rewrite (index_raises _ _ _ E4)].
  right; right. now exists t, z, m, r.
Qed.


(** ** The patterns on lines written from their fields *)

Lemma digits_class s :
  digits s = true -> all_chars (in_class CDigit) s = true /\ s <> "".
Proof. intros H. now apply digits_spec in H. Qed.

Lemma movie_watch_search st u m mn post :
  stamp_ok st = true -> digits u = true ->
  all_chars (in_class CDot) m = true -> m <> "" -> occurs "/" m = false ->
  digits mn = true ->
  search movie_watch_pattern
    (stamp_text st ++ "," ++ u ++ ",GET /data/m/" ++ m ++ "/" ++ mn
       ++ ".mpg" ++ post)
  = Some [stamp_text st; u; m; mn].
Proof.
  intros Hst Hu Hm Hne Hsl Hmn.
  apply digits_class in Hu as [Hu Hun], Hmn as [Hmn Hmnn].
  apply search_here. unfold movie_watch_pattern.
  rewrite (stamp_consumed _ _ _ _ _ Hst).
  rewrite rmatch_close, rmatch_lit_app, rmatch_open.
  apply rmatch_greedy_plus_app; [assumption|assumption|reflexivity|].
  rewrite rmatch_close, rmatch_lit_app, rmatch_open.
  apply rmatch_lazy_plus_app; [assumption|assumption|assumption|].
  rewrite rmatch_close, rmatch_lit_app, rmatch_open.
  apply rmatch_greedy_plus_app; [assumption|assumption|reflexivity|].
  rewrite rmatch_close, rmatch_lit_app.
  reflexivity.
Qed.





(** ** The lines in which the patterns are found *)

Lemma Lang_count c n p w :
  Lang (TCount c n :: p) w ->
  exists x w', w = x ++ w' /\ all_chars (in_class c) x = true
               /\ String.length x = n /\ Lang p w'.
Proof. inversion 1; subst. eauto 7. Qed.

Lemma Lang_nil w : Lang [] w -> w = "".
Proof. now inversion 1. Qed.

Lemma search_complete p z y : Pre p y -> search p (z ++ y) <> None.
Proof.
  intros H. induction z as [|a z IH]; cbn [append].
  - pose proof (Pre_rmatch p y [] None H) as N.
    destruct y; cbn [search]; destruct (rmatch p [] _ None); congruence.
  - cbn [search]. destruct (rmatch p [] _ None); [discriminate|assumption].
Qed.

(** The pattern is found exactly in the texts that hold a match. *)
Lemma search_found p s :
  search p s <> None <-> exists z w e, s = z ++ w ++ e /\ Lang p w.
Proof.
  split.
  - destruct (search p s) as [r|] eqn:E; [|congruence]. intros _.
    destruct (search_some _ _ _ E) as (z & y & -> & Hy).
    destruct (rmatch_Pre _ _ _ _ _ Hy) as (w & e & -> & Hw).
    now exists z, w, e.
  - intros (z & w & e & -> & Hw). apply search_complete. now exists w, e.
Qed.

Ltac lang_inv H :=
  repeat first
    [ apply Lang_open in H
    | apply Lang_close in H
    | let w := fresh "w" in
      apply Lang_lit in H as (w & -> & H)
    | let x := fresh "x" in let w := fresh "w" in
      let Hx := fresh "Hx" in let Hl := fresh "Hl" in
      apply Lang_count in H as (x & w & -> & Hx & Hl & H)
    | let x := fresh "x" in let w := fresh "w" in
      let Hx := fresh "Hx" in
      apply Lang_star in H as (x & w & -> & Hx & H)
    | let x := fresh "x" in let w := fresh "w" in
      let Hx := fresh "Hx" in let Hn := fresh "Hn" in
      apply Lang_plus in H as (x & w & -> & Hx & Hn & H) ];
  apply Lang_nil in H.

Lemma Lang_stamp st q w :
  stamp_ok st = true -> Lang q w ->
  Lang (timestamp_toks ++ q)%list (stamp_text st ++ w).
Proof.
  unfold stamp_ok. rewrite !andb_true_iff.
  intros (((((Hy & Hm) & Hd) & Hh) & Hi) & Hs) Hq.
  apply digits_n_spec in Hy as [Hy Ly], Hm as [Hm Lm], Hd as [Hd Ld],
    Hh as [Hh Lh], Hi as [Hi Li], Hs as [Hs Ls].
  unfold timestamp_toks, stamp_text. cbn [app]. rewrite <- !sapp_assoc.
  repeat (first [ apply LOpen | apply LLit
                | apply LCount; [assumption|assumption|] ]).
  assumption.
Qed.

Lemma movie_watch_Lang st u m mn :
  stamp_ok st = true -> digits u = true ->
  all_chars (in_class CDot) m = true -> m <> "" -> digits mn = true ->
  Lang movie_watch_pattern (movie_watch_line st u m mn).
Proof.
  intros Hst Hu Hm Hne Hmn.
  apply digits_class in Hu as [Hu Hun], Hmn as [Hmn Hmnn].
  unfold movie_watch_pattern, movie_watch_line.
  apply Lang_stamp; [assumption|].
  change ".mpg" with (".mpg" ++ "").
  repeat (first [ apply LOpen | apply LClose | apply LLit | apply LNil
                | apply LPlus; [assumption|assumption|] ]).
Qed.

Lemma movie_watch_Lang_inv w :
  Lang movie_watch_pattern w ->
  exists st u m mn,
    w = movie_watch_line st u m mn
    /\ stamp_ok st = true /\ digits u = true
    /\ m <> "" /\ one_line m = true /\ digits mn = true.
Proof.
  intros H. unfold movie_watch_pattern, timestamp_toks in H. cbn [app] in H.
  lang_inv H. subst.
  exists {| year := x; month := x0; day := x1;
            hour := x2; mins := x3; secs := x4 |}, x5, x6, x7.
  split; [|split; [|split; [|split; [|split]]]].
  - unfold movie_watch_line, stamp_text. cbn [year month day hour mins secs].
    rewrite <- !sapp_assoc. reflexivity.
  - unfold stamp_ok. cbn [year month day hour mins secs].
    now rewrite !digits_n_intro.
  - now apply digits_spec.
  - assumption.
  - assumption.
  - now apply digits_spec.
Qed.

Lemma recommendation_Lang st frac u sv s res rt :
  stamp_ok st = true -> digits frac = true -> digits u = true ->
  all_chars (in_class CDot) sv = true -> all_chars (in_class CDot) s = true ->
  all_chars (in_class CDot) res = true -> digits rt = true ->
  Lang recommendation_pattern (recommendation_line st frac u sv s res rt).
Proof.
  intros Hst Hf Hu Hsv Hs Hres Hrt.
  apply digits_class in Hf as [Hf Hfn], Hu as [Hu Hun], Hrt as [Hrt Hrtn].
  unfold recommendation_line. change " ms" with (" ms" ++ "").
  unfold recommendation_pattern. apply Lang_stamp; [assumption|].
  repeat (first [ apply LOpen | apply LClose | apply LLit | apply LNil
                | apply LPlus; [assumption|assumption|]
                | apply LStar; [assumption|] ]).
Qed.

Lemma recommendation_Lang_inv w :
  Lang recommendation_pattern w ->
  exists st frac u sv s res rt,
    w = recommendation_line st frac u sv s res rt
    /\ stamp_ok st = true /\ digits frac = true /\ digits u = true
    /\ one_line sv = true /\ one_line s = true /\ one_line res = true
    /\ digits rt = true.
Proof.
  intros H. unfold recommendation_pattern, timestamp_toks in H.
  cbn [app] in H. lang_inv H. subst.
  exists {| year := x; month := x0; day := x1;
            hour := x2; mins := x3; secs := x4 |}, x5, x6, x7, x8, x9, x10.
  split; [|split; [|split; [|split; [|split; [|split; [|split]]]]]].
  - unfold recommendation_line, stamp_text.
    cbn [year month day hour mins secs].
    rewrite <- !sapp_assoc. reflexivity.
  - unfold stamp_ok. cbn [year month day hour mins secs].
    now rewrite !digits_n_intro.
  - now apply digits_spec.
  - now apply digits_spec.
  - assumption.
  - assumption.
  - assumption.
  - now apply digits_spec.
Qed.

End ParserFacts.

(** * Further properties of the loop *)

Local Open Scope list_scope.

(** A parser prints only when it reports failure, and then one line. *)
Lemma parser_output tag p line o res :
  parser_for tag = Some p -> p line = (o, res) ->
  match res with
  | Return None => o = [PText (rejection (tag, line))]
  | _ => o = []
  end.
Proof.
  intros Hp H.
  destruct (parser_for_cases _ _ Hp) as [[-> ->]|[[-> ->]|[-> ->]]].
  - unfold parse_recommendation, bind, lift, ret, print in H.
    destruct (search recommendation_pattern line)
      as [[|t [|u [|sv [|s [|rs [|rt [|? ?]]]]]]]|];
      try (injection H as <- <-; reflexivity).
    destruct (Py.int u); [|injection H as <- <-; reflexivity].
    destruct (Py.int s); injection H as <- <-; reflexivity.
  - unfold parse_movie_watch, bind, lift, ret, print in H.
    destruct (search movie_watch_pattern line)
      as [[|t [|u [|m [|mn [|? ?]]]]]|];
      try (injection H as <- <-; reflexivity).
    destruct (Py.int u); injection H as <- <-; reflexivity.
  - destruct (ParserFacts.parse_rating_cases line)
      as [E|[E|(t & z & m & r & E)]];
      rewrite E in H; injection H as <- <-; reflexivity.
Qed.

(** A record a parser returns is not the empty dict. *)
Lemma parsed_truthy tag p line o d :
  parser_for tag = Some p -> p line = (o, Return (Some d)) ->
  truthy_data (Some d) = true.
Proof.
  intros Hp H.
  destruct (parser_for_cases _ _ Hp) as [[-> ->]|[[-> ->]|[-> ->]]].
  - destruct (parse_recommendation_shape _ _ _ H)
      as (? & ? & ? & ? & ? & ? & ? & ? & _ & _ & ->). reflexivity.
  - destruct (parse_movie_watch_shape _ _ _ H)
      as (? & ? & ? & ? & ? & _ & ->). reflexivity.
  - destruct (parse_rating_shape _ _ _ H) as (? & ? & ? & ? & ->). reflexivity.
Qed.

(** A skipped row: two lines, the files as they were. *)
Lemma process_row_skipped long_ids r fs :
  kept r = false -> process_row long_ids r fs = (report r, Return fs).
Proof.
  destruct r as [tag line]. unfold report. intros H. rewrite H.
  unfold kept in H. cbn [fst snd] in *. unfold process_row.
  destruct (parser_for tag) as [p|] eqn:Hp.
  - rewrite (dispatch_known long_ids tag line p Hp).
    destruct (p line) as [o [[d|]|e]] eqn:E; try discriminate H.
    pose proof (parser_output _ _ _ _ _ Hp E) as Ho. cbn in Ho. subst o.
    reflexivity.
  - rewrite (dispatch_unknown long_ids tag line Hp).
    unfold rejection, parser_for in *. cbn [fst snd].
    destruct (String.eqb tag "Recommendation"); [discriminate|].
    destruct (String.eqb tag "Movie"); [discriminate|].
    reflexivity.
Qed.

(** A row that is not skipped: nothing is printed; its parser raises, or
    the encoder raises, or the encoding of its record goes to its file. *)
Lemma process_row_kept long_ids r fs :
  kept r = true ->
  exists res,
    process_row long_ids r fs = ([], res)
    /\ forall fs', res = Return fs' ->
         exists d, parsed r = Some d
           /\ Avro.write (schema_for long_ids (fst r)) d
              = Return (write_record (schema_for long_ids (fst r)) d)
           /\ file_write (fst r)
                (write_record (schema_for long_ids (fst r)) d) fs
              = Return fs'.
Proof.
  destruct r as [tag line]. unfold kept, parsed. cbn [fst snd]. intros H.
  unfold process_row.
  destruct (parser_for tag) as [p|] eqn:Hp; [|discriminate H].
  rewrite (dispatch_known long_ids tag line p Hp).
  destruct (p line) as [o [[d|]|e]] eqn:E; try discriminate H.
  - pose proof (parser_output _ _ _ _ _ Hp E) as Ho. cbn in Ho. subst o.
    pose proof (parsed_truthy _ _ _ _ _ Hp E) as Ht.
    unfold bind at 1. unfold bind at 1. cbn [ret app]. rewrite Ht.
    cbn [truthy]. unfold encode_avro, Avro.write, lift.
    destruct (validate (schema_for long_ids tag) d) eqn:V.
    + cbn [bind]. destruct (file_write tag _ fs) as [fs1|e] eqn:W.
      * eexists. split; [reflexivity|]. intros fs' [= <-].
        exists d. rewrite V. now repeat split.
      * eexists. split; [reflexivity|]. discriminate.
    + cbn [bind]. eexists. split; [reflexivity|]. discriminate.
  - pose proof (parser_output _ _ _ _ _ Hp E) as Ho. cbn in Ho. subst o.
    cbn [bind]. eexists. split; [reflexivity|]. discriminate.
Qed.

Lemma for_rows_skip long_ids r rows fs out :
  kept r = false ->
  for_rows long_ids (r :: rows) fs out
  = for_rows long_ids rows fs (out ++ report r).
Proof.
  intros H. cbn [for_rows]. now rewrite (process_row_skipped long_ids r fs H).
Qed.

(** What was printed before does not change what the loop writes or
    raises. *)
Lemma for_rows_out long_ids rows : forall fs out out',
  written (for_rows long_ids rows fs out)
  = written (for_rows long_ids rows fs out')
  /\ raised (for_rows long_ids rows fs out)
     = raised (for_rows long_ids rows fs out').
Proof.
  induction rows as [|r rows IH]; intros fs out out'; [now split|].
  cbn [for_rows]. destruct (process_row long_ids r fs) as [o [fs'|e]].
  - apply IH.
  - now split.
Qed.

Lemma for_rows_filter long_ids rows : forall fs out out',
  written (for_rows long_ids (filter kept rows) fs out)
  = written (for_rows long_ids rows fs out')
  /\ raised (for_rows long_ids (filter kept rows) fs out)
     = raised (for_rows long_ids rows fs out').
Proof.
  induction rows as [|r rows IH]; intros fs out out'; [now split|].
  cbn [filter]. destruct (kept r) eqn:K.
  - cbn [for_rows]. destruct (process_row long_ids r fs) as [o [fs'|e]].
    + apply IH.
    + now split.
  - rewrite (for_rows_skip long_ids r rows fs out' K). apply IH.
Qed.

(** What a run that completes has printed. *)
Lemma for_rows_stdout long_ids rows : forall fs out,
  raised (for_rows long_ids rows fs out) = None ->
  stdout (for_rows long_ids rows fs out)
  = out ++ flat_map report rows ++ [confirmation].
Proof.
  induction rows as [|r rows IH]; intros fs out H; [reflexivity|].
  cbn [flat_map]. destruct (kept r) eqn:K.
  - destruct (process_row_kept long_ids r fs K) as (res & E & _).
    cbn [for_rows] in *. rewrite E in *. destruct res as [fs'|e];
      [|discriminate H].
    rewrite (IH _ _ H). unfold report. rewrite K. now rewrite app_nil_r.
  - rewrite (for_rows_skip long_ids r rows fs out K) in *.
    rewrite (IH _ _ H). now rewrite <- !app_assoc.
Qed.



(** Every record of a category comes from a line its parser accepts. *)
Lemma records_of_parsed tag p rows d :
  parser_for tag = Some p -> In d (records_of tag rows) ->
  exists line out, p line = (out, Return (Some d)).
Proof.
  intros Hp. unfold records_of. rewrite in_flat_map.
  intros ([ty line] & _ & H). cbn [fst snd] in H.
  destruct (String.eqb_spec ty tag) as [->|]; [|contradiction].
  unfold parsed in H. cbn [fst snd] in H. rewrite Hp in H.
  destruct (p line) as [out [[d'|]|e]] eqn:E; try contradiction.
  destruct H as [<-|[]]. now exists line, out.
Qed.

(** Reading a file that holds the encodings of the records of a category
    shows the first of them. *)
Lemma read_first_record long_ids tag p rows d :
  parser_for tag = Some p ->
  hd_error (records_of tag rows) = Some d ->
  forallb (fits long_ids) d = true ->
  read_from_avro
    (contents (map (write_record (schema_for long_ids tag)) (records_of tag rows)))
    (schema_for long_ids tag)
  = ([PDatum d], Return tt).
Proof.
  intros Hp Hd Hf.
  destruct (records_of tag rows) as [|d' l] eqn:E; [discriminate Hd|].
  injection Hd as ->.
  destruct (records_of_parsed tag p rows d Hp) as (line & out & Hl);
    [rewrite E; now left|].
  destruct (parsed_fields_ok long_ids tag p line out d Hp Hl Hf) as [Hok Hpr].
  unfold contents. cbn [map List.concat].
  unfold read_from_avro, decode_avro, Avro.read, bind, lift.
  rewrite (AvroFacts.read_write_record _ d [] _ Hok). cbn [app].
  now rewrite Hpr.
Qed.

Lemma file_of_no_files tag : file_of tag no_files = [].
Proof.
  unfold file_of, no_files. cbn [rec_file movie_file rating_file].
  destruct (String.eqb tag "Recommendation"); [reflexivity|].
  destruct (String.eqb tag "Movie"); reflexivity.
Qed.

(** The encoder, on a record of a parser: validation looks at the
    integers only. *)
Lemma validate_parsed long_ids tag p line out d :
  parser_for tag = Some p -> p line = (out, Return (Some d)) ->
  validate (schema_for long_ids tag) d = forallb (int_fits long_ids) d.
Proof.
  intros Hp Hl.
  destruct (parser_for_cases _ _ Hp) as [[-> ->]|[[-> ->]|[-> ->]]].
  - destruct (parse_recommendation_shape _ _ _ Hl)
      as (t & u & z & sv & s & st & res & rt & _ & _ & ->).
    unfold validate, schema_for, recommendation_request_schema.
    cbn [String.eqb Ascii.eqb Bool.eqb forallb validate_field get fst snd
         int_fits].
    cbn [validate_type]. rewrite validate_strings.
    now rewrite ?andb_true_r, ?andb_true_l.
  - destruct (parse_movie_watch_shape _ _ _ Hl)
      as (t & u & z & m & mn & _ & ->).
    unfold validate, schema_for, movie_watch_schema.
    cbn [String.eqb Ascii.eqb Bool.eqb forallb validate_field get fst snd
         int_fits].
    cbn [validate_type]. now rewrite ?andb_true_r, ?andb_true_l.
  - destruct (parse_rating_shape _ _ _ Hl) as (t & z & m & r & ->).
    unfold validate, schema_for, movie_rating_schema.
    cbn [String.eqb Ascii.eqb Bool.eqb forallb validate_field get fst snd
         int_fits].
    cbn [validate_type]. now rewrite ?andb_true_r, ?andb_true_l.
Qed.

(** Neither pattern is found in a text without a decimal digit. *)
Lemma search_digit_free p s :
  (p = movie_watch_pattern \/ p = recommendation_pattern) ->
  all_chars (fun a => negb (Py.is_digit a)) s = true ->
  search p s = None.
Proof.
  intros Hp. induction s as [|a s IH]; intros H.
  - destruct Hp as [-> | ->]; reflexivity.
  - cbn [all_chars] in H. apply andb_prop in H as [Ha H].
    apply negb_true_iff in Ha. cbn [search].
    rewrite (PatternFacts.no_match_at_non_digit p a s Hp Ha). now apply IH.
Qed.

(** What a parser can raise: [ValueError] out of [int()], and the rating
    parser [IndexError] as well. *)
Lemma parser_raises tag p line o e :
  parser_for tag = Some p -> p line = (o, Raise e) ->
  e = ValueError \/ (tag = "Rating" /\ e = IndexError).
Proof.
  intros Hp H.
  destruct (parser_for_cases _ _ Hp) as [[-> ->]|[[-> ->]|[-> ->]]].
  - left. unfold parse_recommendation, bind, lift, ret, print in H.
    destruct (search recommendation_pattern line)
      as [[|t [|u [|sv [|s [|rs [|rt [|? ?]]]]]]]|];
      try (injection H as _ <-; reflexivity); try discriminate H.
    destruct (Py.int u) as [z|e'] eqn:Eu;
      [|injection H as _ <-; exact (ParserFacts.int_raises _ _ Eu)].
    destruct (Py.int s) as [z'|e'] eqn:Es; [discriminate H|].
    injection H as _ <-. exact (ParserFacts.int_raises _ _ Es).
  - left. unfold parse_movie_watch, bind, lift, ret, print in H.
    destruct (search movie_watch_pattern line)
      as [[|t [|u [|m [|mn [|? ?]]]]]|];
      try (injection H as _ <-; reflexivity); try discriminate H.
    destruct (Py.int u) as [z|e'] eqn:Eu; [discriminate H|].
    injection H as _ <-. exact (ParserFacts.int_raises _ _ Eu).
  - destruct (ParserFacts.parse_rating_cases line)
      as [E|[E|(t & z & m & r & E)]]; rewrite E in H.
    + injection H as _ <-. now right.
    + injection H as _ <-. now left.
    + discriminate H.
Qed.



(** A turn of the loop on a row with two texts that raises: nothing was
    printed, the tag is one of the three, and the exception comes out of
    the parser or out of the encoder. *)
Lemma process_row_raises long_ids tag line fs o e :
  process_row long_ids (tag, line) fs = (o, Raise e) ->
  o = []
  /\ (tag = "Movie" \/ tag = "Recommendation" \/ tag = "Rating")
  /\ (e = ValueError \/ e = AvroTypeException
      \/ (e = IndexError /\ tag = "Rating")).
Proof.
  intros H.
  assert (K : kept (tag, line) = true).
  { destruct (kept (tag, line)) eqn:K; [reflexivity|].
    rewrite (process_row_skipped long_ids _ fs K) in H. discriminate H. }
  destruct (process_row_kept long_ids _ fs K) as (res & E & _).
  rewrite E in H. injection H as <- ->. split; [reflexivity|].
  unfold process_row in E. unfold kept in K. cbn [fst snd] in K.
  destruct (parser_for tag) as [p|] eqn:Hp; [|discriminate K].
  split.
  { destruct (parser_for_cases _ _ Hp) as [[-> _]|[[-> _]|[-> _]]]; tauto. }
  rewrite (dispatch_known long_ids tag line p Hp) in E.
  destruct (p line) as [o1 [[d|]|e1]] eqn:El; try discriminate K.
  - pose proof (parsed_truthy _ _ _ _ _ Hp El) as Ht.
    unfold bind at 1 in E. unfold bind at 1 in E. cbn [ret] in E.
    rewrite Ht in E. cbn [truthy] in E.
    unfold encode_avro, Avro.write, lift in E.
    destruct (validate (schema_for long_ids tag) d).
    + cbn [bind] in E.
      destruct (file_write_known tag p
                  (write_record (schema_for long_ids tag) d) fs Hp)
        as (fs1 & W & _).
      rewrite W in E. discriminate E.
    + cbn [bind] in E. injection E as _ <-. tauto.
  - cbn [bind] in E. injection E as _ <-.
    destruct (parser_raises _ _ _ _ _ Hp El) as [-> | [-> ->]]; tauto.
Qed.

(** * The claims *)

(** C1 (code defect): the rating parser has no failure path.  A line
    with fewer than three comma-separated parts, a non-numeric user id or no
    "=" in the third part raises [IndexError] or [ValueError] out of
    [parse_rating]; a non-numeric status raises [ValueError] out of
    [parse_recommendation]; and the batch stops at such a row, leaving the
    rows after it unprocessed. *)
Theorem parsers_raise_on_malformed_lines :
  parse_rating "garbage line" = ([], Raise IndexError)
  /\ parse_rating "2023-08-01T10:17:00,42,/data/m/Inception"
     = ([], Raise IndexError)
  /\ parse_rating "2023-08-01T10:17:00,forty-two,/data/m/Inception=4"
     = ([], Raise ValueError)
  /\ parse_recommendation
       "2023-08-01T10:15:30.123,42,recommendation request srv1, status OK, result: tt001, tt002, 150 ms"
     = ([], Raise ValueError)
  /\ forall long_ids,
       let r := serializer long_ids
                  [("Rating", "garbage line");
                   ("Movie", "2023-08-01T10:16:00,42,GET /data/m/The+Matrix/5.mpg")] in
       raised r = Some IndexError /\ movie_file (written r) = [] /\ stdout r = [].
Proof.
  repeat split; try (vm_compute; reflexivity);
    destruct long_ids; vm_compute; reflexivity.
Qed.

(** C2 (code defect): [read_from_avro] decodes once.  Whatever follows
    the first record in the file, the only thing printed is that first
    record. *)
Theorem read_from_avro_first_record_only (sch : schema) (d : dict) (rest : list Z) :
  forallb (field_ok d) sch = true ->
  read_from_avro (write_record sch d ++ rest) sch
  = ([PDatum (project sch d)], Return tt).
Proof.
  intros H. unfold read_from_avro, decode_avro, Avro.read, bind, lift.
  now rewrite AvroFacts.read_write_record.
Qed.

Lemma read_from_avro_first_record_only_witness :
  let sch := movie_watch_schema false in
  let d1 := [("time", VStr "2023-08-01T10:16:00"); ("userid", VInt 42);
             ("movieid", VStr "The Matrix"); ("minute", VStr "5")] in
  let d2 := [("time", VStr "2023-08-01T10:16:30"); ("userid", VInt 43);
             ("movieid", VStr "Inception"); ("minute", VStr "17")] in
  read_from_avro (write_record sch d1 ++ write_record sch d2) sch
  = ([PDatum d1], Return tt).
Proof.
  intros sch d1 d2.
  exact (read_from_avro_first_record_only sch d1 (write_record sch d2) eq_refl).
Defined.

(** C3 (code defect): for a known tag whose parser reports failure the
    second component of the dispatcher's result is the pair [(None, None)],
    which is not [None] and is true in a condition. *)
Theorem dispatcher_failed_parse_schema_present : forall long_ids : bool,
  identify_and_parse_log_entry long_ids "Movie" "garbage line"
  = ([PText "Unexpected format for Movie Watch log entry: garbage line"],
     Return (None, OTuple [ONone; ONone]))
  /\ truthy (OTuple [ONone; ONone]) = true
  /\ identify_and_parse_log_entry long_ids "Weather" "garbage line"
     = ([PText "Skipping unknown log entry type: Weather"],
        Return (None, ONone)).
Proof. intros long_ids. repeat split. Qed.

(** C4, as amended: a record returned by one of the three parsers whose
    integers lie in the range of the schema's integer type (and whose texts
    are storable) is encoded by [encode_avro], and [decode_avro] on the bytes
    returns that record. *)
Theorem roundtrip_lossless (long_ids : bool) (tag line : string)
    (p : string -> io (option dict)) (out : list printed) (d : dict) :
  parser_for tag = Some p ->
  p line = (out, Return (Some d)) ->
  forallb (fits long_ids) d = true ->
  exists b,
    encode_avro d (OSchema (schema_for long_ids tag)) = Return b
    /\ decode_avro b (schema_for long_ids tag) = Return d.
Proof.
  intros Hp Hl Hf.
  destruct (parsed_fields_ok long_ids tag p line out d Hp Hl Hf) as [Hok Hpr].
  exists (write_record (schema_for long_ids tag) d). split.
  - unfold encode_avro, Avro.write.
    now rewrite (AvroFacts.field_ok_validate _ _ Hok).
  - unfold decode_avro, Avro.read.
    rewrite <- (app_nil_r (write_record _ d)).
    rewrite AvroFacts.read_write_record by assumption.
    cbn [app]. now rewrite Hpr.
Qed.

Lemma roundtrip_lossless_witness :
  exists b,
    encode_avro [("time", VStr "2023-08-01T10:16:00"); ("userid", VInt 42);
                 ("movieid", VStr "The Matrix"); ("minute", VStr "5")]
                (OSchema (schema_for false "Movie")) = Return b
    /\ decode_avro b (schema_for false "Movie")
       = Return [("time", VStr "2023-08-01T10:16:00"); ("userid", VInt 42);
                 ("movieid", VStr "The Matrix"); ("minute", VStr "5")].
Proof.
  apply (roundtrip_lossless false "Movie"
           "2023-08-01T10:16:00,42,GET /data/m/The+Matrix/5.mpg"
           parse_movie_watch []); reflexivity.
Defined.

(** C4, as stated, fails: a movie-watch line with a twenty-digit user id
    is parsed, and the encoder refuses the record, under either integer
    type. *)
Lemma roundtrip_refused_out_of_range :
  let d := [("time", VStr "2023-08-01T10:16:00");
            ("userid", VInt 99999999999999999999);
            ("movieid", VStr "The Matrix"); ("minute", VStr "5")] in
  parse_movie_watch
    "2023-08-01T10:16:00,99999999999999999999,GET /data/m/The+Matrix/5.mpg"
  = ([], Return (Some d))
  /\ encode_avro d (OSchema (movie_watch_schema false)) = Raise AvroTypeException
  /\ encode_avro d (OSchema (movie_watch_schema true)) = Raise AvroTypeException.
Proof. repeat split; vm_compute; reflexivity. Qed.




(** C6: the recommendation example, and how a match becomes a record. *)
Theorem parse_recommendation_example :
  parse_recommendation
    "2023-08-01T10:15:30.123,42,recommendation request srv1, status 200, result: tt001, tt002, 150 ms"
  = ([], Return (Some [("time", VStr "2023-08-01T10:15:30.123");
                       ("userid", VInt 42);
                       ("server", VStr "srv1");
                       ("status", VInt 200);
                       ("recommendations", VList [VStr "tt001"; VStr "tt002"]);
                       ("responsetime", VStr "150 ms")]))
  /\ forall entry t u sv s res rt z st,
       search recommendation_pattern entry = Some [t; u; sv; s; res; rt] ->
       Py.int u = Return z -> Py.int s = Return st ->
       parse_recommendation entry
       = ([], Return (Some [("time", VStr t);
                            ("userid", VInt z);
                            ("server", VStr sv);
                            ("status", VInt st);
                            ("recommendations",
                             VList (map VStr (Py.split ", " res)));
                            ("responsetime", VStr (rt ++ " ms")%string)])).
Proof.
  split; [vm_compute; reflexivity|].
  intros entry t u sv s res rt z st Hs Hu Hst.
  unfold parse_recommendation. rewrite Hs.
  unfold bind, lift, ret. now rewrite Hu, Hst.
Qed.

(** C8: the rating example, and how the parts become a record. *)
Theorem parse_rating_example :
  parse_rating "2023-08-01T10:17:00,42,/data/m/Inception=4"
  = ([], Return (Some [("time", VStr "2023-08-01T10:17:00");
                       ("userid", VInt 42);
                       ("movieid", VStr "Inception");
                       ("rating", VStr "4")]))
  /\ forall entry t u p2 l r z m,
       Py.split "," entry = [t; u; p2] ->
       Py.split "=" p2 = [l; r] ->
       Py.int u = Return z ->
       Py.last (Py.split "/" l) = Return m ->
       parse_rating entry
       = ([], Return (Some [("time", VStr t); ("userid", VInt z);
                            ("movieid", VStr m); ("rating", VStr r)])).
Proof.
  split; [vm_compute; reflexivity|].
  intros entry t u p2 l r z m Hs Hp Hu Hm.
  unfold parse_rating. rewrite Hs. cbn [Py.index nth_error].
  unfold bind, lift, ret. rewrite Hu, Hp. cbn [Py.index nth_error].
  now rewrite Hm.
Qed.

(** C7, as amended: for every line in which the movie-watch pattern is
    found, with groups [t], [u], [m], [mn], and whose user id [u] has no
    more digits than [int()] converts, the record is
    [{time: t, userid: the value of the digits u, movieid: m with each "+"
    replaced by a space and every other character kept, minute: mn}];
    with more digits [int()] raises [ValueError] and there is no record. *)
Theorem parse_movie_watch_record (entry : string) (gs : list string) :
  search movie_watch_pattern entry = Some gs ->
  exists t u m mn,
    gs = [t; u; m; mn]
    /\ all_chars Py.is_digit u = true /\ u <> EmptyString
    /\ parse_movie_watch entry
       = ([], if within_cap u
              then Return (Some [("time", VStr t);
                                 ("userid", VInt (decimal 0 u));
                                 ("movieid", VStr (Py.replace "+" " " m));
                                 ("minute", VStr mn)])
              else Raise ValueError)
    /\ String.length (Py.replace "+" " " m) = String.length m
    /\ forall i,
         String.get i (Py.replace "+" " " m)
         = option_map (fun a => if Ascii.eqb a "+" then " "%char else a)
                      (String.get i m).
Proof.
  intros H.
  destruct (PatternFacts.movie_watch_groups _ _ H)
    as (t & u & m & mn & -> & Hu & Hne & _).
  exists t, u, m, mn. repeat split; try assumption.
  - unfold parse_movie_watch. rewrite H.
    unfold bind, lift, ret. rewrite (PatternFacts.int_digits u Hu Hne).
    now destruct (within_cap u).
  - apply PatternFacts.replace_length.
  - apply PatternFacts.replace_get.
Qed.

Lemma parse_movie_watch_record_witness :
  parse_movie_watch "2023-08-01T10:16:00,42,GET /data/m/The+Matrix/5.mpg"
  = ([], Return (Some [("time", VStr "2023-08-01T10:16:00");
                       ("userid", VInt 42);
                       ("movieid", VStr "The Matrix");
                       ("minute", VStr "5")])).
Proof.
  destruct (parse_movie_watch_record
              "2023-08-01T10:16:00,42,GET /data/m/The+Matrix/5.mpg"
              ["2023-08-01T10:16:00"; "42"; "The+Matrix"; "5"] eq_refl)
    as (t & u & m & mn & E & _ & _ & Hp & _).
  injection E as <- <- <- <-. exact Hp.
Defined.

(** C7, as stated, fails: a line the pattern matches, with a user id of
    4301 digits, gives no record; [int()] refuses the digits and the parser
    raises [ValueError]. *)
Lemma long_user_id_gives_no_record :
  search movie_watch_pattern
    ("2023-08-01T10:16:00," ++ nines 4301 ++ ",GET /data/m/The+Matrix/5.mpg")
  = Some ["2023-08-01T10:16:00"; nines 4301; "The+Matrix"; "5"]
  /\ parse_movie_watch
       ("2023-08-01T10:16:00," ++ nines 4301 ++ ",GET /data/m/The+Matrix/5.mpg")
     = ([], Raise ValueError).
Proof. split; vm_compute; reflexivity. Qed.

(** C9, as amended: when the movie-watch or the recommendation parser
    returns a record for a line, it returns the same record for that line
    followed by any text and preceded by any text without a decimal digit. *)
Theorem search_ignores_surrounding_text
    (pre line post : string) (out : list printed) (d : dict) :
  all_chars (fun a => negb (Py.is_digit a)) pre = true ->
  (parse_movie_watch line = (out, Return (Some d)) ->
   parse_movie_watch (pre ++ line ++ post) = (out, Return (Some d)))
  /\ (parse_recommendation line = (out, Return (Some d)) ->
      parse_recommendation (pre ++ line ++ post) = (out, Return (Some d))).
Proof.
  intros Hpre. split; intros H.
  - unfold parse_movie_watch in *.
    destruct (search movie_watch_pattern line) as [gs|] eqn:E;
      [|discriminate H].
    now rewrite (PatternFacts.search_surrounded _ pre line post gs
                   (or_introl eq_refl) Hpre E).
  - unfold parse_recommendation in *.
    destruct (search recommendation_pattern line) as [gs|] eqn:E.
    + now rewrite (PatternFacts.search_surrounded _ pre line post gs
                     (or_intror eq_refl) Hpre E).
    + discriminate H.
Qed.

Lemma search_ignores_surrounding_text_witness :
  parse_movie_watch
    ("INFO: " ++ "2023-08-01T10:16:00,42,GET /data/m/The+Matrix/5.mpg" ++ " 200 OK 17ms")
  = ([], Return (Some [("time", VStr "2023-08-01T10:16:00");
                       ("userid", VInt 42);
                       ("movieid", VStr "The Matrix");
                       ("minute", VStr "5")])).
Proof.
  apply (proj1 (search_ignores_surrounding_text
                  "INFO: " "2023-08-01T10:16:00,42,GET /data/m/The+Matrix/5.mpg"
                  " 200 OK 17ms" [] _ eq_refl)).
  reflexivity.
Defined.

(** C9, as stated, fails: text put in front of a line can hold the start
    of a match of its own, and the record changes. *)
Lemma prepended_text_changes_the_record :
  parse_movie_watch "2023-08-01T10:16:00,42,GET /data/m/The+Matrix/5.mpg"
  = ([], Return (Some [("time", VStr "2023-08-01T10:16:00");
                       ("userid", VInt 42);
                       ("movieid", VStr "The Matrix");
                       ("minute", VStr "5")]))
  /\ parse_movie_watch
       ("2020-01-01T00:00:00,7,GET /data/m/A "
          ++ "2023-08-01T10:16:00,42,GET /data/m/The+Matrix/5.mpg")
     = ([], Return (Some [("time", VStr "2020-01-01T00:00:00");
                          ("userid", VInt 7);
                          ("movieid",
                           VStr "A 2023-08-01T10:16:00,42,GET /data/m/The Matrix");
                          ("minute", VStr "5")])).
Proof. split; vm_compute; reflexivity. Qed.




(** * Further properties of the two scripts *)

Section Extras.
Import Re ReSpec ReFacts PatternFacts ParserFacts.
Local Open Scope string_scope.





(** X3: a record the rating parser returns has clean fields: the time has
    no comma, the movie's name has no comma, "=" or "/", and the rating has
    no comma and no "=".  Nothing was printed on the way. *)
Theorem parse_rating_fields_clean (line : string) (out : list printed) (d : dict) :
  parse_rating line = (out, Return (Some d)) ->
  out = []
  /\ exists t z m r,
       d = [("time", VStr t); ("userid", VInt z);
            ("movieid", VStr m); ("rating", VStr r)]
       /\ free_of "," t = true
       /\ free_of ",=/" m = true
       /\ free_of ",=" r = true.
Proof.
  unfold parse_rating, bind, lift, ret. intros H.
  pose proof (split1_pieces "," line) as Hparts.
  rewrite Forall_forall in Hparts.
  destruct (Py.index (Py.split "," line) 0) as [t|] eqn:E0; [|discriminate H].
  destruct (Py.index (Py.split "," line) 1) as [p1|]; [|discriminate H].
  destruct (Py.int p1) as [z|]; [|discriminate H].
  destruct (Py.index (Py.split "," line) 2) as [p2|] eqn:E2; [|discriminate H].
  destruct (Py.index (Py.split "=" p2) 0) as [m0|] eqn:E3; [|discriminate H].
  destruct (Py.last (Py.split "/" m0)) as [m|] eqn:E5; [|discriminate H].
  destruct (Py.index (Py.split "=" p2) 1) as [r|] eqn:E4; [|discriminate H].
  injection H as <- <-. split; [reflexivity|].
  exists t, z, m, r. split; [reflexivity|].
  pose proof (Hparts _ (index_in _ _ _ E0)) as Ht.
  pose proof (Hparts _ (index_in _ _ _ E2)) as Hp2.
  pose proof (split1_pieces "=" p2) as He. rewrite Forall_forall in He.
  pose proof (split1_free "=" "," p2 Hp2) as Hc. rewrite Forall_forall in Hc.
  pose proof (He _ (index_in _ _ _ E3)) as Hm0e.
  pose proof (Hc _ (index_in _ _ _ E3)) as Hm0c.
  pose proof (split1_pieces "/" m0) as Hs. rewrite Forall_forall in Hs.
  pose proof (split1_free "/" "," m0 Hm0c) as Hsc. rewrite Forall_forall in Hsc.
  pose proof (split1_free "/" "=" m0 Hm0e) as Hse. rewrite Forall_forall in Hse.
  cbn [free_of].
  rewrite Ht, (Hsc _ (last_in _ _ E5)), (Hse _ (last_in _ _ E5)),
    (Hs _ (last_in _ _ E5)), (Hc _ (index_in _ _ _ E4)),
    (He _ (index_in _ _ _ E4)).
  repeat split.
Qed.

Lemma parse_rating_fields_clean_witness :
  @nil printed = []
  /\ exists t z m r,
       [("time", VStr "t0"); ("userid", VInt 7);
        ("movieid", VStr "name"); ("rating", VStr "5")]
       = [("time", VStr t); ("userid", VInt z);
          ("movieid", VStr m); ("rating", VStr r)]
       /\ free_of "," t = true
       /\ free_of ",=/" m = true
       /\ free_of ",=" r = true.
Proof.
  apply (parse_rating_fields_clean "t0,7,GET /rate/name=5"). reflexivity.
Defined.

(** X4: a row tagged "Rating" is never skipped, whatever the reader gives
    as its log entry.  The loop prints nothing for it, and either raises
    [IndexError], [ValueError] or [AvroTypeException], [AttributeError]
    when the row has no second field, [KeyError] when the header has no
    "Log Entry" column, or appends one encoding to the rating file and
    leaves the two other files as they were. *)
Theorem rating_row_never_skipped (long_ids : bool) (entry : cell) (fs : files) :
  exists res,
    loop_turn long_ids {| type_cell := Text "Rating"; entry_cell := entry |} fs
    = ([], res)
    /\ match res with
       | Raise e =>
           match entry with
           | Absent => e = KeyError
           | Null => e = AttributeError
           | Text _ =>
               e = IndexError \/ e = ValueError \/ e = AvroTypeException
           end
       | Return fs' =>
           rec_file fs' = rec_file fs /\ movie_file fs' = movie_file fs
           /\ exists b, rating_file fs' = (rating_file fs ++ [b])%list
       end.
Proof.
  unfold loop_turn. cbn [type_cell entry_cell].
  destruct entry as [| |line].
  - eexists. split; reflexivity.
  - eexists. split; reflexivity.
  - unfold process_row, identify_and_parse_log_entry.
    cbn [String.eqb Ascii.eqb Bool.eqb].
    destruct (parse_rating_cases line) as [E|[E|(t & z & m & r & E)]];
      rewrite E; cbn [bind ret app].
    + eexists. split; [reflexivity|]. now left.
    + eexists. split; [reflexivity|]. right; now left.
    + cbn [truthy_data truthy]. unfold encode_avro, Avro.write, lift.
      destruct (validate _ _);
        cbn [bind file_write String.eqb Ascii.eqb Bool.eqb app].
      * eexists. split; [reflexivity|]. cbn. repeat split. now eexists.
      * eexists. split; [reflexivity|]. right; now right.
Qed.

(** X5: the three outcomes of the movie-watch parser.  Either the
    pattern is not found, and the parser prints its diagnostic with the line
    and returns [None]; or the user id of the match has more digits than
    [int()] converts, and the parser raises [ValueError], having printed
    nothing; or it prints nothing and returns a record whose time is a
    well-formed stamp, whose user id is the value of a run of digits, so
    not negative, whose movie id is not empty and holds no "+" and no line
    feed, and whose minute is a run of digits. *)
Theorem parse_movie_watch_outcomes (entry : string) :
  parse_movie_watch entry
  = ([PText ("Unexpected format for Movie Watch log entry: " ++ entry)],
     Return None)
  \/ (exists t u m mn,
        search movie_watch_pattern entry = Some [t; u; m; mn]
        /\ digits u = true /\ within_cap u = false
        /\ parse_movie_watch entry = ([], Raise ValueError))
  \/ exists st u movieid mn,
       parse_movie_watch entry
       = ([], Return (Some [("time", VStr (stamp_text st));
                            ("userid", VInt (decimal 0 u));
                            ("movieid", VStr movieid);
                            ("minute", VStr mn)]))
       /\ stamp_ok st = true
       /\ digits u = true /\ within_cap u = true /\ 0 <= decimal 0 u
       /\ movieid <> "" /\ occurs "+" movieid = false
       /\ occurs "010" movieid = false
       /\ digits mn = true.
Proof.
  unfold parse_movie_watch.
  destruct (search movie_watch_pattern entry) as [gs|] eqn:E; [|now left].
  destruct (movie_watch_match _ _ E)
    as (st & u & m & mn & -> & Hst & Hu & Hm & Hne & Hmn).
  right. pose proof Hu as Hu'. apply digits_spec in Hu' as [Hd Hn].
  unfold bind, lift, ret. rewrite (int_digits u Hd Hn).
  destruct (within_cap u) eqn:Hc.
  - right. exists st, u, (Py.replace "+" " " m), mn.
    repeat split; try assumption.
    + now apply decimal_nonneg.
    + now apply replace_nonempty.
    + now apply replace_removes.
    + eapply occurs_allows; [apply replace_keeps, Hm|]; reflexivity.
  - left. exists (stamp_text st), u, m, mn. now repeat split.
Qed.


(** X7: a movie-watch line written from its fields parses back to them.
    When the stamp is well formed, the user id and the minute are runs of
    digits and the movie's name is not empty, on one line and without "/",
    the parser prints nothing and, if the user id has no more digits than
    [int()] converts, returns the record of the stamp, the value of the
    user id, the name with each "+" replaced by a space, and the minute;
    with more digits it raises [ValueError]. *)
Theorem parse_movie_watch_of_line (st : stamp) (userid movieid minute : string) :
  stamp_ok st = true -> digits userid = true -> movie_name movieid = true ->
  digits minute = true ->
  parse_movie_watch (movie_watch_line st userid movieid minute)
  = ([], if within_cap userid
         then Return (Some [("time", VStr (stamp_text st));
                            ("userid", VInt (decimal 0 userid));
                            ("movieid", VStr (Py.replace "+" " " movieid));
                            ("minute", VStr minute)])
         else Raise ValueError).
Proof.
  intros Hst Hu Hm Hmn. unfold movie_name in Hm.
  apply andb_prop in Hm as [Hm Hsl]. apply andb_prop in Hm as [Hne Hm].
  apply negb_true_iff in Hsl, Hne. apply String.eqb_neq in Hne.
  unfold parse_movie_watch, movie_watch_line.
  change ".mpg" with (".mpg" ++ "").
  rewrite (movie_watch_search st userid movieid minute "" Hst Hu Hm Hne Hsl Hmn).
  apply digits_spec in Hu as [Hd Hn].
  unfold bind, lift, ret. rewrite (int_digits userid Hd Hn).
  now destruct (within_cap userid).
Qed.

Lemma parse_movie_watch_of_line_witness :
  parse_movie_watch
    (movie_watch_line
       {| year := "2024"; month := "02"; day := "01";
          hour := "10"; mins := "15"; secs := "00" |}
       "4021" "toy+story+1995" "12")
  = ([], Return (Some [("time", VStr "2024-02-01T10:15:00");
                       ("userid", VInt 4021);
                       ("movieid", VStr "toy story 1995");
                       ("minute", VStr "12")])).
Proof.
  exact (parse_movie_watch_of_line
           {| year := "2024"; month := "02"; day := "01";
              hour := "10"; mins := "15"; secs := "00" |}
           "4021" "toy+story+1995" "12" eq_refl eq_refl eq_refl eq_refl).
Defined.



(** X9: the rows the loop skips, those with an unknown tag and those
    whose parser reports failure, change nothing: the run over the other
    rows alone writes the same three files and ends the same way. *)
Theorem skipped_rows_change_nothing (long_ids : bool) (rows : list row) :
  written (serializer long_ids (filter kept rows))
  = written (serializer long_ids rows)
  /\ raised (serializer long_ids (filter kept rows))
     = raised (serializer long_ids rows).
Proof. apply for_rows_filter. Qed.

(** X10: what a run that completes has printed: for each skipped row, in
    row order, the line of the parser or of the dispatcher about it and the
    line "Skipping log entry due to parsing error: " with the row's text;
    nothing for the rows written; and the confirmation line at the end. *)
Theorem completed_run_output (long_ids : bool) (rows : list row) :
  raised (serializer long_ids rows) = None ->
  stdout (serializer long_ids rows)
  = (flat_map report rows ++ [confirmation])%list.
Proof. intros H. exact (for_rows_stdout long_ids rows no_files [] H). Qed.

Lemma completed_run_output_witness :
  stdout (serializer true [("Movie", "garbage"); ("Other", "x");
                           ("Rating", "t,1,GET /rate/name=3")])
  = [PText "Unexpected format for Movie Watch log entry: garbage";
     PText "Skipping log entry due to parsing error: garbage";
     PText "Skipping unknown log entry type: Other";
     PText "Skipping log entry due to parsing error: x";
     PText "Binary Avro data has been written to files."].
Proof.
  apply (completed_run_output true [("Movie", "garbage"); ("Other", "x");
                                    ("Rating", "t,1,GET /rate/name=3")]).
  reflexivity.
Defined.




(** X13: the two scripts, one after the other.  When the serializer
    completes and each category has a row that parsed, the first record of
    each fitting the schemas, the deserializer run on the three files prints
    the three headings, each followed by the first record of its category,
    and nothing of the later records. *)
Theorem serialize_then_deserialize
    (long_ids : bool) (rows : list row) (dr dm dt : dict) :
  raised (serializer long_ids rows) = None ->
  hd_error (records_of "Recommendation" rows) = Some dr ->
  hd_error (records_of "Movie" rows) = Some dm ->
  hd_error (records_of "Rating" rows) = Some dt ->
  forallb (fits long_ids) dr = true ->
  forallb (fits long_ids) dm = true ->
  forallb (fits long_ids) dt = true ->
  deserializer long_ids
    (contents (rec_file (written (serializer long_ids rows))))
    (contents (movie_file (written (serializer long_ids rows))))
    (contents (rating_file (written (serializer long_ids rows))))
  = ([PText "Recommendation Requests:"; PDatum dr;
      PText (String "010" "Movie Watches:"); PDatum dm;
      PText (String "010" "Movie Ratings:"); PDatum dt],
     Return tt).
Proof.
  intros H Hr Hm Ht Fr Fm Ft. unfold serializer in *.
  pose proof (for_rows_files long_ids rows no_files [] H
                "Recommendation" parse_recommendation eq_refl) as Er.
  pose proof (for_rows_files long_ids rows no_files [] H
                "Movie" parse_movie_watch eq_refl) as Em.
  pose proof (for_rows_files long_ids rows no_files [] H
                "Rating" parse_rating eq_refl) as Et.
  rewrite file_of_no_files in Er, Em, Et. cbn [app] in Er, Em, Et.
  change (file_of "Recommendation" ?w) with (rec_file w) in Er.
  change (file_of "Movie" ?w) with (movie_file w) in Em.
  change (file_of "Rating" ?w) with (rating_file w) in Et.
  rewrite Er, Em, Et. unfold deserializer.
  change (recommendation_request_schema long_ids)
    with (schema_for long_ids "Recommendation").
  change (movie_watch_schema long_ids) with (schema_for long_ids "Movie").
  change (movie_rating_schema long_ids) with (schema_for long_ids "Rating").
  rewrite (read_first_record long_ids "Recommendation" parse_recommendation
             rows dr eq_refl Hr Fr).
  rewrite (read_first_record long_ids "Movie" parse_movie_watch
             rows dm eq_refl Hm Fm).
  rewrite (read_first_record long_ids "Rating" parse_rating
             rows dt eq_refl Ht Ft).
  reflexivity.
Qed.

Lemma serialize_then_deserialize_witness :
  deserializer true
    (contents (rec_file (written (serializer true
       [("Rating", "t,1,GET /rate/name=3");
        ("Movie", "2024-02-01T10:15:00,4021,GET /data/m/toy+story+1995/12.mpg");
        ("Recommendation",
         "2024-02-01T10:15:00.123,4021,recommendation request s, status 200, result: a, b, 87 ms");
        ("Rating", "t,2,GET /rate/other=4")]))))
    (contents (movie_file (written (serializer true
       [("Rating", "t,1,GET /rate/name=3");
        ("Movie", "2024-02-01T10:15:00,4021,GET /data/m/toy+story+1995/12.mpg");
        ("Recommendation",
         "2024-02-01T10:15:00.123,4021,recommendation request s, status 200, result: a, b, 87 ms");
        ("Rating", "t,2,GET /rate/other=4")]))))
    (contents (rating_file (written (serializer true
       [("Rating", "t,1,GET /rate/name=3");
        ("Movie", "2024-02-01T10:15:00,4021,GET /data/m/toy+story+1995/12.mpg");
        ("Recommendation",
         "2024-02-01T10:15:00.123,4021,recommendation request s, status 200, result: a, b, 87 ms");
        ("Rating", "t,2,GET /rate/other=4")]))))
  = ([PText "Recommendation Requests:";
      PDatum [("time", VStr "2024-02-01T10:15:00.123"); ("userid", VInt 4021);
              ("server", VStr "s"); ("status", VInt 200);
              ("recommendations", VList [VStr "a"; VStr "b"]);
              ("responsetime", VStr "87 ms")];
      PText (String "010" "Movie Watches:");
      PDatum [("time", VStr "2024-02-01T10:15:00"); ("userid", VInt 4021);
              ("movieid", VStr "toy story 1995"); ("minute", VStr "12")];
      PText (String "010" "Movie Ratings:");
      PDatum [("time", VStr "t"); ("userid", VInt 1);
              ("movieid", VStr "name"); ("rating", VStr "3")]],
     Return tt).
Proof.
  apply (serialize_then_deserialize true
       [("Rating", "t,1,GET /rate/name=3");
        ("Movie", "2024-02-01T10:15:00,4021,GET /data/m/toy+story+1995/12.mpg");
        ("Recommendation",
         "2024-02-01T10:15:00.123,4021,recommendation request s, status 200, result: a, b, 87 ms");
        ("Rating", "t,2,GET /rate/other=4")]);
    reflexivity.
Defined.

(** X14: a category without a row that parsed leaves its file empty, and
    the deserializer stops there.  When the serializer completes on rows
    none of which gives a recommendation record, the deserializer prints
    its first heading and raises, whatever the two other files hold. *)
Theorem deserializer_stops_at_empty_file
    (long_ids : bool) (rows : list row) (movie rating : list Z) :
  raised (serializer long_ids rows) = None ->
  records_of "Recommendation" rows = [] ->
  exists e,
    deserializer long_ids
      (contents (rec_file (written (serializer long_ids rows)))) movie rating
    = ([PText "Recommendation Requests:"], Raise e).
Proof.
  intros H Hr. unfold serializer in *.
  pose proof (for_rows_files long_ids rows no_files [] H
                "Recommendation" parse_recommendation eq_refl) as Er.
  rewrite file_of_no_files, Hr in Er.
  change (file_of "Recommendation" ?w) with (rec_file w) in Er.
  rewrite Er. now eexists.
Qed.

Lemma deserializer_stops_at_empty_file_witness :
  exists e,
    deserializer true
      (contents (rec_file (written (serializer true
         [("Rating", "t,1,GET /rate/name=3"); ("Recommendation", "garbage")]))))
      [1; 2; 3] []
    = ([PText "Recommendation Requests:"], Raise e).
Proof.
  apply (deserializer_stops_at_empty_file true
           [("Rating", "t,1,GET /rate/name=3"); ("Recommendation", "garbage")]
           [1; 2; 3] []); reflexivity.
Defined.

(** X15: when the encoder refuses a parsed record.  For a record returned
    by the parser of its tag, [encode_avro] with the schema of that tag
    returns the encoding when every integer of the record is in the range
    of the schemas' integer type, and raises [AvroTypeException] otherwise;
    the texts play no part. *)
Theorem encoder_refuses_iff_out_of_range
    (long_ids : bool) (tag line : string) (p : string -> io (option dict))
    (out : list printed) (d : dict) :
  parser_for tag = Some p ->
  p line = (out, Return (Some d)) ->
  encode_avro d (OSchema (schema_for long_ids tag))
  = if forallb (int_fits long_ids) d
    then Return (write_record (schema_for long_ids tag) d)
    else Raise AvroTypeException.
Proof.
  intros Hp Hl. unfold encode_avro, Avro.write.
  now rewrite (validate_parsed long_ids tag p line out d Hp Hl).
Qed.

Lemma encoder_refuses_iff_out_of_range_witness :
  encode_avro
    [("time", VStr "t"); ("userid", VInt 3000000000);
     ("movieid", VStr "name"); ("rating", VStr "3")]
    (OSchema (schema_for false "Rating"))
  = if forallb (int_fits false)
         [("time", VStr "t"); ("userid", VInt 3000000000);
          ("movieid", VStr "name"); ("rating", VStr "3")]
    then Return (write_record (schema_for false "Rating")
                   [("time", VStr "t"); ("userid", VInt 3000000000);
                    ("movieid", VStr "name"); ("rating", VStr "3")])
    else Raise AvroTypeException.
Proof.
  apply (encoder_refuses_iff_out_of_range false "Rating"
           "t,3000000000,GET /rate/name=3" parse_rating []); reflexivity.
Defined.

(** X16: a line without a decimal digit, the empty line among them, is
    reported, not raised: the movie-watch parser and the recommendation
    parser each print their diagnostic with the line and return [None]. *)
Theorem digit_free_lines_are_reported (line : string) :
  all_chars (fun a => negb (Py.is_digit a)) line = true ->
  parse_movie_watch line
  = ([PText ("Unexpected format for Movie Watch log entry: " ++ line)],
     Return None)
  /\ parse_recommendation line
     = ([PText ("Could not parse recommendation log entry: " ++ line)],
        Return None).
Proof.
  intros H. unfold parse_movie_watch, parse_recommendation.
  rewrite (search_digit_free movie_watch_pattern line (or_introl eq_refl) H).
  rewrite (search_digit_free recommendation_pattern line (or_intror eq_refl) H).
  now split.
Qed.

Lemma digit_free_lines_are_reported_witness :
  parse_movie_watch "garbage line, status OK"
  = ([PText "Unexpected format for Movie Watch log entry: garbage line, status OK"],
     Return None)
  /\ parse_recommendation "garbage line, status OK"
     = ([PText "Could not parse recommendation log entry: garbage line, status OK"],
        Return None).
Proof.
  exact (digit_free_lines_are_reported "garbage line, status OK" eq_refl).
Defined.

(** X17: what one turn of the loop can raise, on any row of the reader,
    and when.  A turn that raises has printed nothing.  [KeyError] needs a
    header without one of the two columns; [TypeError] a "Movie" or
    "Recommendation" row without a second field, [AttributeError] a
    "Rating" row without one; [IndexError] a "Rating" row; [ValueError]
    and [AvroTypeException] a row with one of the three tags.  A row with
    another tag, or with no tag, never raises when the header has both
    columns, and [file_objects[tag]] always finds the file of the tag. *)
Theorem row_exceptions (long_ids : bool) (r : csv_row) (fs : files)
    (o : list printed) (e : exn) :
  loop_turn long_ids r fs = (o, Raise e) ->
  o = []
  /\ ((e = KeyError /\ (type_cell r = Absent \/ entry_cell r = Absent))
      \/ (e = TypeError /\ entry_cell r = Null
          /\ (type_cell r = Text "Movie"
              \/ type_cell r = Text "Recommendation"))
      \/ (e = AttributeError /\ entry_cell r = Null
          /\ type_cell r = Text "Rating")
      \/ (e = IndexError /\ type_cell r = Text "Rating"
          /\ exists line, entry_cell r = Text line)
      \/ ((e = ValueError \/ e = AvroTypeException)
          /\ (type_cell r = Text "Movie"
              \/ type_cell r = Text "Recommendation"
              \/ type_cell r = Text "Rating")
          /\ exists line, entry_cell r = Text line)).
Proof.
  destruct r as [ty en]. unfold loop_turn. cbn [type_cell entry_cell].
  destruct ty as [| |tag], en as [| |line]; unfold lift, print, bind, ret;
    try (intros [= <- <-]; split; [reflexivity|]; left; split; tauto);
    try discriminate.
  - destruct (String.eqb_spec tag "Recommendation") as [->|];
      [intros [= <- <-]; split; [reflexivity|]; right; left; tauto|].
    destruct (String.eqb_spec tag "Movie") as [->|];
      [intros [= <- <-]; split; [reflexivity|]; right; left; tauto|].
    destruct (String.eqb_spec tag "Rating") as [->|];
      [intros [= <- <-]; split; [reflexivity|]; right; right; left; tauto|].
    discriminate.
  - intros H.
    destruct (process_row_raises long_ids tag line fs o e H)
      as (-> & Ht & He).
    split; [reflexivity|]. do 3 right.
    destruct He as [-> | [-> | [-> ->]]].
    + right. split; [now left|]. split; [|now exists line].
      destruct Ht as [-> | [-> | ->]]; tauto.
    + right. split; [now right|]. split; [|now exists line].
      destruct Ht as [-> | [-> | ->]]; tauto.
    + left. split; [reflexivity|]. split; [reflexivity|now exists line].
Qed.

Lemma row_exceptions_witness :
  @nil printed = []
  /\ ((AttributeError = KeyError
       /\ (Text "Rating" = Absent \/ Null = Absent))
      \/ (AttributeError = TypeError /\ Null = Null
          /\ (Text "Rating" = Text "Movie"
              \/ Text "Rating" = Text "Recommendation"))
      \/ (AttributeError = AttributeError /\ Null = Null
          /\ Text "Rating" = Text "Rating")
      \/ (AttributeError = IndexError /\ Text "Rating" = Text "Rating"
          /\ exists line, Null = Text line)
      \/ ((AttributeError = ValueError \/ AttributeError = AvroTypeException)
          /\ (Text "Rating" = Text "Movie"
              \/ Text "Rating" = Text "Recommendation"
              \/ Text "Rating" = Text "Rating")
          /\ exists line, Null = Text line)).
Proof.
  exact (row_exceptions true
           {| type_cell := Text "Rating"; entry_cell := Null |}
           no_files [] AttributeError eq_refl).
Defined.

(** X18: which lines the movie-watch parser rejects.  It reports
    failure, printing its diagnostic and returning [None], for every line
    but those that hold, somewhere, a movie-watch line: a well-formed
    stamp, a comma, a run of digits, ",GET /data/m/", a non-empty text on
    one line, "/", a run of digits and ".mpg".  For those it returns a
    record or raises. *)
Theorem movie_watch_accepted_iff (entry : string) :
  parse_movie_watch entry
  <> ([PText ("Unexpected format for Movie Watch log entry: " ++ entry)],
      Return None)
  <-> exists pre st u m mn post,
        entry = pre ++ movie_watch_line st u m mn ++ post
        /\ stamp_ok st = true /\ digits u = true
        /\ m <> "" /\ one_line m = true /\ digits mn = true.
Proof.
  split.
  - intros H. unfold parse_movie_watch in H.
    destruct (search movie_watch_pattern entry) as [gs|] eqn:E;
      [|now contradiction H].
    assert (N : search movie_watch_pattern entry <> None) by congruence.
    apply search_found in N as (z & w & e & -> & Hw).
    destruct (movie_watch_Lang_inv w Hw) as (st & u & m & mn & -> & Hc).
    now exists z, st, u, m, mn, e.
  - intros (pre & st & u & m & mn & post & -> & Hst & Hu & Hne & Hm & Hmn).
    assert (N : search movie_watch_pattern
                  (pre ++ movie_watch_line st u m mn ++ post) <> None).
    { apply search_found. exists pre, (movie_watch_line st u m mn), post.
      split; [reflexivity|]. now apply movie_watch_Lang. }
    unfold parse_movie_watch.
    destruct (search movie_watch_pattern _) as [gs|] eqn:E; [|congruence].
    destruct (movie_watch_groups _ _ E)
      as (t & u' & m' & mn' & -> & _).
    unfold bind, lift, ret. destruct (Py.int u'); discriminate.
Qed.

(** X19: which lines the recommendation parser accepts.  It reports
    failure, printing its diagnostic and returning [None], for every line
    but those that hold, somewhere, a recommendation line: a well-formed
    stamp with a fraction, a run of digits, and, after their fixed texts, a
    server, a status and a result on one line and a run of digits before
    " ms".  For those it returns a record or raises. *)
Theorem recommendation_accepted_iff (entry : string) :
  parse_recommendation entry
  <> ([PText ("Could not parse recommendation log entry: " ++ entry)],
      Return None)
  <-> exists pre st frac u sv s res rt post,
        entry = pre ++ recommendation_line st frac u sv s res rt ++ post
        /\ stamp_ok st = true /\ digits frac = true /\ digits u = true
        /\ one_line sv = true /\ one_line s = true /\ one_line res = true
        /\ digits rt = true.
Proof.
  split.
  - intros H. unfold parse_recommendation in H.
    destruct (search recommendation_pattern entry) as [gs|] eqn:E;
      [|now contradiction H].
    assert (N : search recommendation_pattern entry <> None) by congruence.
    apply search_found in N as (z & w & e & -> & Hw).
    destruct (recommendation_Lang_inv w Hw)
      as (st & frac & u & sv & s & res & rt & -> & Hc).
    now exists z, st, frac, u, sv, s, res, rt, e.
  - intros (pre & st & frac & u & sv & s & res & rt & post & -> & Hst & Hf
            & Hu & Hsv & Hs & Hres & Hrt).
    assert (N : search recommendation_pattern
                  (pre ++ recommendation_line st frac u sv s res rt ++ post)
                <> None).
    { apply search_found.
      exists pre, (recommendation_line st frac u sv s res rt), post.
      split; [reflexivity|]. now apply recommendation_Lang. }
    unfold parse_recommendation.
    destruct (search recommendation_pattern _) as [gs|] eqn:E; [|congruence].
    destruct (recommendation_groups _ _ E)
      as (t & u' & sv' & s' & res' & rt' & -> & Hd & Hn & _).
    unfold bind, lift, ret.
    destruct (Py.int u'); [destruct (Py.int s')|]; discriminate.
Qed.

End Extras.
